(** * requestWorker: the render worker's claim-and-execute loop

    A shallow embedding of [src/requestWorker.py]: the status updates, the
    execution driver [render] with its heartbeat loop, and the [__main__]
    polling loop, pass by pass.

    The worker talks to three things it does not control: the job source
    (HTTP client and render-request store), the spawned Unreal process and
    the wall clock.  Their answers are taken from a [World], an oracle with
    one answer stream per kind of call; the worker's own state is the log of
    the calls it has made so far, in the order it made them.  Calls to
    [LOGGER] are left out: they feed the log stream and nothing else.

    The heartbeat loop runs on fuel, one unit per turn; a run that spends it
    is [Blocked], the driver still waiting for the process. *)

From Stdlib Require Import ZArith QArith Qround String Ascii List Bool Lia.
From Stdlib.Strings Require Import Byte.
From Stdlib Require Import DecimalString Sorted Floats.
Import ListNotations.

Local Open Scope Z_scope.
Local Open Scope string_scope.
Local Open Scope list_scope.

(** ** Python values *)

Definition bytes := list byte.

(** The exceptions the [try] of the main loop can see.  All of them are
    instances of Python's [Exception]; [subprocess.CalledProcessError] is the
    one class the first [except] clause singles out.  Interrupts sent to the
    worker from outside ([KeyboardInterrupt], [SystemExit]) stop the process
    and are not part of the model. *)
Inductive PyExc : Type :=
| CalledProcessError (returncode : Z) (cmd : string) (output : string)
| UnicodeDecodeError
| OSError (msg : string)
| ConnectionError (msg : string)
| ValueError (msg : string).

Definition isinstance_CalledProcessError (e : PyExc) : bool :=
  match e with
  | CalledProcessError _ _ _ => true
  | _ => false
  end.

Definition isinstance_Exception (e : PyExc) : bool := true.

(** [int(x)] on a float: truncation toward zero.  Clock readings are finite
    binary64 numbers, hence rationals; the arithmetic on them is taken exact. *)
Definition int_of_float (x : Q) : Z := Z.quot (Qnum x) (Z.pos (Qden x)).

(** [int(x)] in the machine's binary64 arithmetic, [None] where Python
    raises (infinities and NaN).  The development reasons on the exact
    version above; this one replays concrete inputs. *)
Definition int_of_binary64 (x : float) : option Z :=
  match Prim2SF x with
  | S754_zero _ => Some 0
  | S754_finite s m e =>
      let a := if (0 <=? e)%Z then Z.pos m * 2 ^ e else Z.pos m / 2 ^ (- e) in
      Some (if s then - a else a)
  | S754_infinity _ | S754_nan => None
  end.

(** ['{}'.format(n)] for an integer [n]: its decimal digits, with a leading
    minus sign when it is negative. *)
Definition str_of_int (n : Z) : string := NilZero.string_of_int (Z.to_int n).

(** *** [bytes.decode()]: strict UTF-8 *)

Definition in_range (lo hi : N) (b : byte) : bool :=
  (N.leb lo (Byte.to_N b) && N.leb (Byte.to_N b) hi)%bool.

Definition cont (b : byte) : bool := in_range 128 191 b.

Fixpoint utf8_valid_aux (fuel : nat) (bs : bytes) : bool :=
  match fuel with
  | O => match bs with [] => true | _ => false end
  | S fuel' =>
    match bs with
    | [] => true
    | b0 :: r0 =>
      if in_range 0 127 b0 then utf8_valid_aux fuel' r0
      else match r0 with
      | [] => false
      | b1 :: r1 =>
        if in_range 194 223 b0 then cont b1 && utf8_valid_aux fuel' r1
        else match r1 with
        | [] => false
        | b2 :: r2 =>
          if in_range 224 224 b0 then
            in_range 160 191 b1 && cont b2 && utf8_valid_aux fuel' r2
          else if in_range 237 237 b0 then
            in_range 128 159 b1 && cont b2 && utf8_valid_aux fuel' r2
          else if in_range 225 239 b0 then
            cont b1 && cont b2 && utf8_valid_aux fuel' r2
          else match r2 with
          | [] => false
          | b3 :: r3 =>
            if in_range 240 240 b0 then
              in_range 144 191 b1 && cont b2 && cont b3 && utf8_valid_aux fuel' r3
            else if in_range 241 243 b0 then
              cont b1 && cont b2 && cont b3 && utf8_valid_aux fuel' r3
            else if in_range 244 244 b0 then
              in_range 128 143 b1 && cont b2 && cont b3 && utf8_valid_aux fuel' r3
            else false
          end
        end
      end
    end
  end%bool.

Definition utf8_valid (bs : bytes) : bool := utf8_valid_aux (length bs) bs.

(** ** The render request *)

(** Modelled from the spec: [renderRequest.RenderStatus] lives in
    [util/renderRequest.py], which is not under src/.  The spec's state
    machine gives the closed enumeration of job statuses. *)
Inductive RenderStatus : Type :=
| ready_to_start
| in_progress
| finished
| errored.

Definition RenderStatus_eqb (a b : RenderStatus) : bool :=
  match a, b with
  | ready_to_start, ready_to_start
  | in_progress, in_progress
  | finished, finished
  | errored, errored => true
  | _, _ => false
  end.

(** The fields of a [RenderRequest] the worker reads. *)
Record RenderRequest : Type := {
  uid : string;
  worker : string;
  status : RenderStatus;
  umap_path : string;
  useq_path : string;
  uconfig_path : string
}.

(** ** Configuration *)

Definition WORKER_NAME : string := "RENDER_MACHINE_01".
Definition UNREAL_EXE : string :=
  "C:\Program Files\Epic Games\UE_5.5\Engine\Binaries\Win64\UnrealEditor.exe".
Definition UNREAL_PROJECT : string :=
  "D:\Documentos publicos\Unreal Projects\MeerkatDemo\MeerkatDemo.uproject".

(** ** The heartbeat estimates *)

(** [min(100, int((elapsed_time / 60) * 100))] *)
Definition progress_of (elapsed_time : Q) : Z :=
  Z.min 100 (int_of_float ((elapsed_time / 60) * 100)%Q).

(** ['{}s'.format(int(60 - elapsed_time))] *)
Definition time_estimate_of (elapsed_time : Q) : string :=
  (str_of_int (int_of_float (60 - elapsed_time)%Q) ++ "s")%string.

(** The same two estimates in binary64 arithmetic. *)
Definition progress_of_binary64 (elapsed_time : float) : option Z :=
  option_map (Z.min 100)
             (int_of_binary64 ((elapsed_time / 60) * 100)%float).

Definition time_estimate_of_binary64 (elapsed_time : float) : option string :=
  option_map (fun n => (str_of_int n ++ "s")%string)
             (int_of_binary64 (60 - elapsed_time)%float).

(** Whether [n / 8] seconds of elapsed time give the same two estimates in
    binary64 as in exact arithmetic. *)
Definition same_estimates (n : Z) : bool :=
  let elapsed_binary64 := (PrimFloat.of_uint63 (Uint63.of_Z n) / 8)%float in
  match progress_of_binary64 elapsed_binary64,
        time_estimate_of_binary64 elapsed_binary64 with
  | Some progress, Some time_estimate =>
      (progress =? progress_of (n # 8))%Z
      && (time_estimate =? time_estimate_of (n # 8))%string
  | _, _ => false
  end.

(** ** The outside world *)

(** What an external call does: it returns a value or raises. *)
Inductive outcome (A : Type) : Type :=
| Returns (a : A)
| Raises (e : PyExc).
Arguments Returns {A} a.
Arguments Raises {A} e.

(** The kinds of external call the worker makes. *)
Inductive Call : Type :=
| CGetAllRequests
| CFromDb
| CUpdate
| CUpdateRequest
| CPopen
| CPoll
| CTime
| CSleep
| CCommunicate.

Definition Call_eqb (a b : Call) : bool :=
  match a, b with
  | CGetAllRequests, CGetAllRequests
  | CFromDb, CFromDb
  | CUpdate, CUpdate
  | CUpdateRequest, CUpdateRequest
  | CPopen, CPopen
  | CPoll, CPoll
  | CTime, CTime
  | CSleep, CSleep
  | CCommunicate, CCommunicate => true
  | _, _ => false
  end.

(** One entry of the log: the call and its arguments. *)
Inductive Event : Type :=
| EvGetAllRequests
    (* client.get_all_requests() *)
| EvFromDb (uid : string)
    (* renderRequest.RenderRequest.from_db(uid) *)
| EvUpdate (uid : string) (progress : Z) (status : RenderStatus)
           (time_estimate : string)
    (* rrequest.update(progress=, status=, time_estimate=) *)
| EvUpdateRequest (uid : string) (progress : Z) (status : RenderStatus)
                  (time_estimate : string)
    (* client.update_request(uid, progress, status, time_estimate) *)
| EvPopen (command : list string) (UE_PYTHONPATH : string)
    (* subprocess.Popen(command, stdout=PIPE, stderr=PIPE, env=env) *)
| EvPoll
    (* proc.poll() *)
| EvTime
    (* time.time() *)
| EvSleep (seconds : Z)
    (* time.sleep(seconds) *)
| EvCommunicate.
    (* proc.communicate() *)

Definition kind (ev : Event) : Call :=
  match ev with
  | EvGetAllRequests => CGetAllRequests
  | EvFromDb _ => CFromDb
  | EvUpdate _ _ _ _ => CUpdate
  | EvUpdateRequest _ _ _ _ => CUpdateRequest
  | EvPopen _ _ => CPopen
  | EvPoll => CPoll
  | EvTime => CTime
  | EvSleep _ => CSleep
  | EvCommunicate => CCommunicate
  end.

(** How many calls of kind [c] the log holds. *)
Fixpoint ncalls (c : Call) (l : list Event) : nat :=
  match l with
  | [] => O
  | ev :: l' => if Call_eqb (kind ev) c then S (ncalls c l') else ncalls c l'
  end.

(** The world answers the [n]-th call of each kind ([n] counts from 0 over
    the whole run).  The [client] and [renderRequest] modules live in
    [util/], which is not under src/: what their calls answer, like what the
    process and the clock answer, is a parameter of the run.  [poll_at] is
    [None] while the spawned process is alive and its exit code afterwards;
    [time_at] are the readings of [time.time()], in seconds.  [time.sleep]
    returns nothing and cannot fail. *)
Record World : Type := {
  MODULE_PATH : string;
  get_all_requests_at : nat -> outcome (list RenderRequest);
  from_db_at : nat -> outcome RenderRequest;
  update_at : nat -> outcome unit;
  update_request_at : nat -> outcome unit;
  Popen_at : nat -> outcome unit;
  poll_at : nat -> outcome (option Z);
  time_at : nat -> Q;
  communicate_at : nat -> outcome (bytes * bytes)
}.

(** ** The worker's monad: a log of calls, exceptions, and a blocked loop *)

(** [Blocked]: the heartbeat loop is still waiting for the process when the
    fuel given to it runs out. *)
Inductive res (A : Type) : Type :=
| Ret (a : A)
| Exc (e : PyExc)
| Blocked.
Arguments Ret {A} a.
Arguments Exc {A} e.
Arguments Blocked {A}.

(** A computation reads the log of the calls made so far and gives its
    result together with the calls it makes itself, in order; the log after
    it is the log before it followed by those. *)
Definition M (A : Type) : Type := list Event -> res A * list Event.

Definition ret {A : Type} (a : A) : M A := fun _ => (Ret a, []).

Definition raise {A : Type} (e : PyExc) : M A := fun _ => (Exc e, []).

Definition blocked {A : Type} : M A := fun _ => (Blocked, []).

Definition bind {A B : Type} (m : M A) (f : A -> M B) : M B :=
  fun l =>
    match m l with
    | (Ret a, evs) => let (r, evs') := f a (l ++ evs) in (r, evs ++ evs')
    | (Exc e, evs) => (Exc e, evs)
    | (Blocked, evs) => (Blocked, evs)
    end.

Declare Scope worker_scope.
Delimit Scope worker_scope with worker.
Notation "x <- m ;; k" := (bind m (fun x => k))
  (at level 100, m at next level, right associativity) : worker_scope.
Notation "m ;; k" := (bind m (fun _ => k))
  (at level 100, right associativity) : worker_scope.
Local Open Scope worker_scope.

(** An external call: log it and hand back the world's answer. *)
Definition res_of {A : Type} (answer : outcome A) : res A :=
  match answer with
  | Returns a => Ret a
  | Raises e => Exc e
  end.

Definition call {A : Type} (ev : Event) (answer : outcome A) : M A :=
  fun _ => (res_of answer, [ev]).

(** [try: body except C1: h1 except C2: h2 ...]: the first clause whose
    class test accepts the exception handles it; with none, it propagates. *)
Fixpoint find_handler {A : Type}
         (clauses : list ((PyExc -> bool) * (PyExc -> M A)))
         (e : PyExc) : option (M A) :=
  match clauses with
  | [] => None
  | (accepts, handler) :: rest =>
      if accepts e then Some (handler e) else find_handler rest e
  end.

Definition try_except {A : Type} (body : M A)
           (clauses : list ((PyExc -> bool) * (PyExc -> M A))) : M A :=
  fun l =>
    match body l with
    | (Exc e, evs) =>
        match find_handler clauses e with
        | Some handler => let (r, evs') := handler (l ++ evs) in (r, evs ++ evs')
        | None => (Exc e, evs)
        end
    | r => r
    end.

(** [for x in xs: body(x)] *)
Fixpoint for_each {A : Type} (xs : list A) (body : A -> M unit) : M unit :=
  match xs with
  | [] => ret tt
  | x :: xs' => body x ;; for_each xs' body
  end.

(** ** The program *)

Section Worker.

Variable w : World.

(** *** External calls *)

Definition client_get_all_requests : M (list RenderRequest) :=
  fun l => call EvGetAllRequests
                (get_all_requests_at w (ncalls CGetAllRequests l)) l.

Definition client_update_request (uid : string) (progress : Z)
           (status : RenderStatus) (time_estimate : string) : M unit :=
  fun l => call (EvUpdateRequest uid progress status time_estimate)
                (update_request_at w (ncalls CUpdateRequest l)) l.

(** Modelled from the spec: [RenderRequest.from_db] lives in
    [util/renderRequest.py], which is not under src/.  A job is identified by
    its unique identifier, so the object loaded for [uid] is the handle of
    job [uid], with the payload the store holds for it; the load may raise. *)
Definition RenderRequest_from_db (uid : string) : M RenderRequest :=
  fun l =>
    call (EvFromDb uid)
         match from_db_at w (ncalls CFromDb l) with
         | Returns r =>
             Returns {| uid := uid; worker := worker r; status := status r;
                        umap_path := umap_path r; useq_path := useq_path r;
                        uconfig_path := uconfig_path r |}
         | Raises e => Raises e
         end l.

(** Modelled from the spec: [RenderRequest.update] lives in
    [util/renderRequest.py], which is not under src/.  It is the job source's
    update of the mutable fields (progress, status, time estimate) of the job
    behind the handle, and it may raise. *)
Definition RenderRequest_update (rrequest : RenderRequest) (progress : Z)
           (status : RenderStatus) (time_estimate : string) : M unit :=
  fun l => call (EvUpdate (uid rrequest) progress status time_estimate)
                (update_at w (ncalls CUpdate l)) l.

Definition subprocess_Popen (command : list string) (UE_PYTHONPATH : string)
  : M unit :=
  fun l => call (EvPopen command UE_PYTHONPATH) (Popen_at w (ncalls CPopen l)) l.

Definition proc_poll : M (option Z) :=
  fun l => call EvPoll (poll_at w (ncalls CPoll l)) l.

Definition proc_communicate : M (bytes * bytes) :=
  fun l => call EvCommunicate (communicate_at w (ncalls CCommunicate l)) l.

Definition time_time : M Q :=
  fun l => call EvTime (Returns (time_at w (ncalls CTime l))) l.

Definition time_sleep (seconds : Z) : M unit :=
  fun l => call (EvSleep seconds) (Returns tt) l.

(** [bytes.decode()] *)
Definition decode (b : bytes) : M string :=
  if utf8_valid b then ret (string_of_list_byte b) else raise UnicodeDecodeError.

(** *** [send_status_update] *)

Definition send_status_update (uid : string) (progress : Z)
           (time_estimate : string) (status : RenderStatus) : M unit :=
  client_update_request uid progress status time_estimate.

(** *** [render] *)

Definition command (uid umap_path useq_path uconfig_path : string)
  : list string :=
  [ UNREAL_EXE;
    UNREAL_PROJECT;
    umap_path;
    ("-JobId=" ++ uid)%string;
    ("-LevelSequence=" ++ useq_path)%string;
    ("-MoviePipelineConfig=" ++ uconfig_path)%string;
    "-game";
    "-MoviePipelineLocalExecutorClass=/Script/MovieRenderPipelineCore.MoviePipelinePythonHostExecutor";
    "-ExecutorPythonClass=/Engine/PythonTypes.MoviePipelineExampleRuntimeExecutor";
    "-windowed";
    "-resX=1280";
    "-resY=720";
    "-StdOut";
    "-FullStdOutLogOutput" ].

(** [while proc.poll() is None: ...].  The loop ends with the exit code
    [poll] reports, which is what [proc.returncode] holds from then on. *)
Fixpoint heartbeat_loop (fuel : nat) (uid : string) (start_time : Q) : M Z :=
  match fuel with
  | O => blocked
  | S fuel' =>
      polled <- proc_poll ;;
      match polled with
      | Some returncode => ret returncode
      | None =>
          now <- time_time ;;
          let elapsed_time := (now - start_time)%Q in
          let progress := progress_of elapsed_time in
          let time_estimate := time_estimate_of elapsed_time in
          send_status_update uid progress time_estimate in_progress ;;
          time_sleep 5 ;;
          heartbeat_loop fuel' uid start_time
      end
  end.

Definition render (fuel : nat) (uid umap_path useq_path uconfig_path : string)
  : M (Z * bytes * bytes) :=
  subprocess_Popen (command uid umap_path useq_path uconfig_path)
                   (MODULE_PATH w) ;;
  start_time <- time_time ;;
  returncode <- heartbeat_loop fuel uid start_time ;;
  out <- proc_communicate ;;
  ret (returncode, fst out, snd out).

(** *** The body of [for uid in uids] *)

Definition on_error (rrequest : RenderRequest) (e : PyExc) : M unit :=
  RenderRequest_update rrequest 0 errored "0".

Definition try_body (fuel : nat) (uid : string) (rrequest : RenderRequest)
  : M unit :=
  RenderRequest_update rrequest 0 in_progress "Calculando..." ;;
  result <- render fuel uid (umap_path rrequest) (useq_path rrequest)
                   (uconfig_path rrequest) ;;
  let '(returncode, stdout, stderr) := result in
  (if negb (returncode =? 0)%Z then
     output <- decode stderr ;;
     raise (CalledProcessError returncode
              "Unreal Engine render process failed" output)
   else ret tt) ;;
  RenderRequest_update rrequest 100 finished "N/A".

Definition process_job (fuel : nat) (uid : string) : M unit :=
  rrequest <- RenderRequest_from_db uid ;;
  try_except (try_body fuel uid rrequest)
             [ (isinstance_CalledProcessError, on_error rrequest);
               (isinstance_Exception, on_error rrequest) ].

(** *** One pass of [while True] *)

Definition eligible (rrequest : RenderRequest) : bool :=
  (worker rrequest =? WORKER_NAME)%string
  && RenderStatus_eqb (status rrequest) ready_to_start.

Definition worker_pass (fuel : nat) : M unit :=
  rrequests <- client_get_all_requests ;;
  let uids := map uid (filter eligible rrequests) in
  for_each uids (process_job fuel) ;;
  time_sleep 10.

(** [while True], cut after [passes] passes: [Ret tt] says the worker is
    still polling, [Exc e] that the exception [e] has ended it. *)
Fixpoint worker_loop (passes fuel : nat) : M unit :=
  match passes with
  | O => ret tt
  | S passes' => worker_pass fuel ;; worker_loop passes' fuel
  end.

End Worker.

(** * The vocabulary of the statements *)

(** ** Logs and what they write *)

(** [emits P m]: whatever the log so far, every call [m] makes satisfies [P]. *)
Definition emits {A : Type} (P : Event -> Prop) (m : M A) : Prop :=
  forall l, Forall P (snd (m l)).

(** The heartbeat [send_status_update] sends for a given elapsed time. *)
Definition heartbeat (uid : string) (elapsed_time : Q) : Event :=
  EvUpdateRequest uid (progress_of elapsed_time) in_progress
                  (time_estimate_of elapsed_time).

(** The three writes of the main loop. *)
Definition claim_write (uid : string) : Event :=
  EvUpdate uid 0 in_progress "Calculando...".

Definition finished_write (uid : string) : Event :=
  EvUpdate uid 100 finished "N/A".

Definition errored_write (uid : string) : Event :=
  EvUpdate uid 0 errored "0".

(** The job a status write is addressed to, and what it writes. *)
Definition written_uid (ev : Event) : option string :=
  match ev with
  | EvUpdate u _ _ _ | EvUpdateRequest u _ _ _ => Some u
  | _ => None
  end.

Definition written_progress (ev : Event) : option Z :=
  match ev with
  | EvUpdate _ p _ _ | EvUpdateRequest _ p _ _ => Some p
  | _ => None
  end.

Definition written_status (ev : Event) : option RenderStatus :=
  match ev with
  | EvUpdate _ _ s _ | EvUpdateRequest _ _ s _ => Some s
  | _ => None
  end.

(** The heartbeat calls of a log, in order, and the progress values a log
    writes. *)
Definition heartbeats (evs : list Event) : list Event :=
  filter (fun ev => Call_eqb (kind ev) CUpdateRequest) evs.

Definition progress_values (evs : list Event) : list Z :=
  flat_map (fun ev => match written_progress ev with
                      | Some p => [p]
                      | None => []
                      end) evs.

(** The status writes of a log that are addressed to job [u], in order, and
    the last of them. *)
Definition writes_to (u : string) (evs : list Event) : list Event :=
  filter (fun ev => match written_uid ev with
                    | Some u' => (u' =? u)%string
                    | None => false
                    end) evs.

Definition last_write (u : string) (evs : list Event) : option Event :=
  last (map Some (writes_to u evs)) None.

(** A write carries a progress value between 0 and 100. *)
Definition progress_in_range (ev : Event) : Prop :=
  forall p, written_progress ev = Some p -> 0 <= p <= 100.

(** A write carries one of the three statuses the worker moves a job to. *)
Definition writes_no_ready_to_start (ev : Event) : Prop :=
  forall s, written_status ev = Some s ->
            s <> ready_to_start /\ (s = in_progress \/ s = finished \/ s = errored).

(** ** The calls of a job and of a pass *)

(** The calls made on behalf of job [u]: its load, its three possible
    writes, and the driver's calls, where every heartbeat carries the
    estimates for the time elapsed between two clock readings, the earlier
    one being the start time. *)
Definition job_event (w : World) (u : string) (ev : Event) : Prop :=
  match ev with
  | EvGetAllRequests => False
  | EvFromDb u' => u' = u
  | EvUpdate _ _ _ _ =>
      ev = claim_write u \/ ev = finished_write u \/ ev = errored_write u
  | EvUpdateRequest _ _ _ _ =>
      exists i j, (i <= j)%nat /\ ev = heartbeat u (time_at w j - time_at w i)
  | EvSleep s => s = 5
  | EvPopen _ _ | EvPoll | EvTime | EvCommunicate => True
  end.

(** The calls of one pass over the eligible identifiers [us]. *)
Definition pass_event (w : World) (us : list string) (ev : Event) : Prop :=
  ev = EvGetAllRequests \/ ev = EvSleep 10 \/ exists u, In u us /\ job_event w u ev.

(** The heartbeat loop polls, reads the clock, sends heartbeats and sleeps;
    the driver around it also spawns the process and collects its output. *)
Definition loop_call (ev : Event) : Prop :=
  match kind ev with
  | CPoll | CTime | CSleep | CUpdateRequest => True
  | _ => False
  end.

Definition driver_call (ev : Event) : Prop :=
  match kind ev with
  | CPopen | CPoll | CTime | CSleep | CCommunicate | CUpdateRequest => True
  | CGetAllRequests | CFromDb | CUpdate => False
  end.

(** ** The turns of the heartbeat loop *)

(** One turn of the heartbeat loop that finds the process alive. *)
Definition tick (uid : string) (elapsed_time : Q) : list Event :=
  [EvPoll; EvTime; heartbeat uid elapsed_time; EvSleep 5].

(** [n] turns in a row, the first of them taking clock reading number [t]. *)
Fixpoint ticks (w : World) (uid : string) (start_time : Q) (t n : nat)
  : list Event :=
  match n with
  | O => []
  | S n' => tick uid (time_at w t - start_time) ++ ticks w uid start_time (S t) n'
  end.

(** How the loop, entered with log [l], ends after [n] complete turns: the
    process has exited, [poll] raised, the heartbeat raised, or the fuel is
    spent. *)
Inductive loop_ending (w : World) (uid : string) (start_time : Q)
          (fuel : nat) (l : list Event) (n : nat)
  : res Z -> list Event -> Prop :=
| ends_exited (returncode : Z) :
    (n < fuel)%nat ->
    poll_at w (ncalls CPoll l + n) = Returns (Some returncode) ->
    loop_ending w uid start_time fuel l n (Ret returncode) [EvPoll]
| ends_poll_raised (e : PyExc) :
    (n < fuel)%nat ->
    poll_at w (ncalls CPoll l + n) = Raises e ->
    loop_ending w uid start_time fuel l n (Exc e) [EvPoll]
| ends_heartbeat_raised (e : PyExc) :
    (n < fuel)%nat ->
    poll_at w (ncalls CPoll l + n) = Returns None ->
    update_request_at w (ncalls CUpdateRequest l + n) = Raises e ->
    loop_ending w uid start_time fuel l n (Exc e)
      [EvPoll; EvTime;
       heartbeat uid (time_at w (ncalls CTime l + n) - start_time)]
| ends_blocked :
    n = fuel ->
    loop_ending w uid start_time fuel l n Blocked [].

(** The process is alive at the first [n] polls after log [l], and the
    heartbeats sent on these turns return. *)
Definition alive_for (w : World) (l : list Event) (n : nat) : Prop :=
  forall i, (i < n)%nat ->
    poll_at w (ncalls CPoll l + i) = Returns None /\
    update_request_at w (ncalls CUpdateRequest l + i) = Returns tt.

(** The log the driver was entered with, once it has spawned the process
    and read the start time. *)
Definition spawned (w : World) (u umap useq uconfig : string) (l : list Event)
  : list Event :=
  l ++ [EvPopen (command u umap useq uconfig) (MODULE_PATH w); EvTime].

(** A clock that never steps back. *)
Definition clock_monotone (w : World) : Prop :=
  forall i j, (i <= j)%nat -> (time_at w i <= time_at w j)%Q.

(** ** The driver and the per-job step by cases *)

(** The driver, by cases on what the world answers. *)
Definition render_cases (w : World) (fuel : nat) (u umap useq uconfig : string)
           (l : list Event) : res (Z * bytes * bytes) * list Event :=
  let spawn := EvPopen (command u umap useq uconfig) (MODULE_PATH w) in
  match Popen_at w (ncalls CPopen l) with
  | Raises e => (Exc e, [spawn])
  | Returns _ =>
      match heartbeat_loop w fuel u (time_at w (ncalls CTime l))
                           (l ++ [spawn; EvTime]) with
      | (Ret returncode, evs) =>
          match communicate_at w (ncalls CCommunicate l) with
          | Returns out =>
              (Ret (returncode, fst out, snd out),
               spawn :: EvTime :: evs ++ [EvCommunicate])
          | Raises e =>
              (Exc e, spawn :: EvTime :: evs ++ [EvCommunicate])
          end
      | (Exc e, evs) => (Exc e, spawn :: EvTime :: evs)
      | (Blocked, evs) => (Blocked, spawn :: EvTime :: evs)
      end
  end.

(** The step for one job, by cases on what the world answers: [k] is the
    number of [update] calls made before the step. *)
Definition process_job_cases (w : World) (fuel : nat) (u : string) (l : list Event)
  : res unit * list Event :=
  let k := ncalls CUpdate l in
  match from_db_at w (ncalls CFromDb l) with
  | Raises e => (Exc e, [EvFromDb u])
  | Returns r =>
      match update_at w k with
      | Raises _ =>
          (res_of (update_at w (S k)),
           [EvFromDb u; claim_write u; errored_write u])
      | Returns _ =>
          match render w fuel u (umap_path r) (useq_path r) (uconfig_path r)
                       (l ++ [EvFromDb u; claim_write u]) with
          | (Ret (returncode, _, _), evs) =>
              if (returncode =? 0)%Z then
                match update_at w (S k) with
                | Returns _ =>
                    (Ret tt,
                     EvFromDb u :: claim_write u :: evs ++ [finished_write u])
                | Raises _ =>
                    (res_of (update_at w (S (S k))),
                     EvFromDb u :: claim_write u
                       :: evs ++ [finished_write u; errored_write u])
                end
              else
                (res_of (update_at w (S k)),
                 EvFromDb u :: claim_write u :: evs ++ [errored_write u])
          | (Exc _, evs) =>
              (res_of (update_at w (S k)),
               EvFromDb u :: claim_write u :: evs ++ [errored_write u])
          | (Blocked, evs) =>
              (Blocked, EvFromDb u :: claim_write u :: evs)
          end
      end
  end.

(** ** Sample worlds *)

Definition job (u wk : string) (st : RenderStatus) : RenderRequest :=
  {| uid := u; worker := wk; status := st;
     umap_path := "/Game/Maps/Main";
     useq_path := "/Game/Sequences/Shot010";
     uconfig_path := "/Game/Presets/Final" |}.

(** Two jobs of this worker that are ready, one of another worker, and one
    of this worker that is already finished. *)
Definition fetched : list RenderRequest :=
  [ job "a1" WORKER_NAME ready_to_start;
    job "b2" "RENDER_MACHINE_02" ready_to_start;
    job "c3" WORKER_NAME finished;
    job "d4" WORKER_NAME ready_to_start ].

Definition scripted (update : nat -> outcome unit)
           (poll : nat -> outcome (option Z)) (clock : nat -> Q) : World :=
  {| MODULE_PATH := "C:\farm\unrealRenderFarm";
     get_all_requests_at := fun _ => Returns fetched;
     from_db_at := fun _ => Returns (job "" WORKER_NAME ready_to_start);
     update_at := update;
     update_request_at := fun _ => Returns tt;
     Popen_at := fun _ => Returns tt;
     poll_at := poll;
     time_at := clock;
     communicate_at := fun _ => Returns ([x4c; x6f; x67], [xff; x21]) |}.

(** The first process is found alive twice and exits with 0, the second is
    found alive once and exits with 1. *)
Definition two_renders (n : nat) : outcome (option Z) :=
  match n with
  | 2%nat => Returns (Some 0)
  | 4%nat => Returns (Some 1)
  | _ => Returns None
  end.

(** A clock read every 5.125 seconds. *)
Definition steady_clock (n : nat) : Q := 1000 + (41 # 8) * inject_Z (Z.of_nat n).

(** A clock set back by five seconds right after the first reading. *)
Definition clock_set_back (n : nat) : Q :=
  match n with
  | O => 1000
  | S _ => 995
  end.

(** A clock whose second reading comes 60.5 seconds after the first, the
    third 65.5 seconds after it. *)
Definition slow_render_clock (n : nat) : Q :=
  match n with
  | O => 1000
  | 1%nat => 2121 # 2
  | _ => 2131 # 2
  end.

Definition calm_world : World :=
  scripted (fun _ => Returns tt) two_renders steady_clock.

Definition source_down_world : World :=
  scripted (fun _ => Raises (ConnectionError "connection refused"))
           two_renders steady_clock.

Definition clock_set_back_world : World :=
  scripted (fun _ => Returns tt) two_renders clock_set_back.

Definition slow_render_world : World :=
  scripted (fun _ => Returns tt) two_renders slow_render_clock.

(** The executable is missing: every spawn raises. *)
Definition no_executable_world : World :=
  {| MODULE_PATH := MODULE_PATH calm_world;
     get_all_requests_at := get_all_requests_at calm_world;
     from_db_at := from_db_at calm_world;
     update_at := update_at calm_world;
     update_request_at := update_request_at calm_world;
     Popen_at := fun _ => Raises (OSError "[WinError 2] file not found");
     poll_at := poll_at calm_world;
     time_at := time_at calm_world;
     communicate_at := communicate_at calm_world |}.

(** ** Further sample worlds *)

Definition with_get_all_requests
           (fetch : nat -> outcome (list RenderRequest)) (w : World) : World :=
  {| MODULE_PATH := MODULE_PATH w;
     get_all_requests_at := fetch;
     from_db_at := from_db_at w;
     update_at := update_at w;
     update_request_at := update_request_at w;
     Popen_at := Popen_at w;
     poll_at := poll_at w;
     time_at := time_at w;
     communicate_at := communicate_at w |}.

Definition with_from_db
           (load : nat -> outcome RenderRequest) (w : World) : World :=
  {| MODULE_PATH := MODULE_PATH w;
     get_all_requests_at := get_all_requests_at w;
     from_db_at := load;
     update_at := update_at w;
     update_request_at := update_request_at w;
     Popen_at := Popen_at w;
     poll_at := poll_at w;
     time_at := time_at w;
     communicate_at := communicate_at w |}.

Definition with_update_request
           (send : nat -> outcome unit) (w : World) : World :=
  {| MODULE_PATH := MODULE_PATH w;
     get_all_requests_at := get_all_requests_at w;
     from_db_at := from_db_at w;
     update_at := update_at w;
     update_request_at := send;
     Popen_at := Popen_at w;
     poll_at := poll_at w;
     time_at := time_at w;
     communicate_at := communicate_at w |}.

(** Nothing to do: the fetched jobs belong to another worker or are done. *)
Definition idle_world : World :=
  with_get_all_requests
    (fun _ => Returns [ job "b2" "RENDER_MACHINE_02" ready_to_start;
                        job "c3" WORKER_NAME finished ])
    calm_world.

(** The job source cannot be reached when the worker polls it. *)
Definition fetch_down_world : World :=
  with_get_all_requests
    (fun _ => Raises (ConnectionError "connection refused")) calm_world.

(** The record of the second job to be loaded cannot be read. *)
Definition load_fails_world : World :=
  with_from_db
    (fun n => match n with
              | 1%nat => Raises (ValueError "Expecting value: line 1 column 1")
              | _ => Returns (job "" WORKER_NAME ready_to_start)
              end)
    calm_world.

(** The process never exits. *)
Definition hung_world : World :=
  scripted (fun _ => Returns tt) (fun _ => Returns None) steady_clock.

(** The second heartbeat does not get through. *)
Definition heartbeat_down_world : World :=
  with_update_request
    (fun n => match n with
              | 1%nat => Raises (ConnectionError "timed out")
              | _ => Returns tt
              end)
    hung_world.

(** The job source refuses the first [update], then the second. *)
Definition claim_refused_world : World :=
  scripted (fun n => match n with
                     | O => Raises (ConnectionError "connection reset")
                     | _ => Returns tt
                     end)
           two_renders steady_clock.

Definition finish_refused_world : World :=
  scripted (fun n => match n with
                     | 1%nat => Raises (ConnectionError "connection reset")
                     | _ => Returns tt
                     end)
           two_renders steady_clock.

(** ** The log of one job inside a pass *)

(** The calls of the step of job [u]: its load, then calls made on its
    behalf, none of them another load. *)
Definition job_segment (w : World) (u : string) (seg : list Event) : Prop :=
  exists rest,
    seg = EvFromDb u :: rest /\
    Forall (job_event w u) rest /\
    Forall (fun ev => kind ev <> CFromDb) rest.


(** * Properties *)

(** ** The estimates as functions of the elapsed time *)

Lemma int_of_float_floor (x : Q) :
  0 <= Qnum x -> int_of_float x = Qfloor x.
Proof.
  intros H. destruct x as [n d]; simpl in *.
  unfold int_of_float; simpl. apply Z.quot_div_nonneg; lia.
Qed.

Lemma int_of_float_ceiling (x : Q) :
  Qnum x <= 0 -> int_of_float x = Qceiling x.
Proof.
  intros H. destruct x as [n d]; simpl in *.
  unfold int_of_float, Qceiling, Qfloor; simpl.
  replace n with (- (- n)) at 1 by lia.
  rewrite Z.quot_opp_l by lia.
  rewrite Z.quot_div_nonneg by lia. reflexivity.
Qed.

Lemma Qnum_nonneg (x : Q) : 0 <= Qnum x <-> (0 <= x)%Q.
Proof. destruct x as [n d]; unfold Qle; simpl. lia. Qed.

Lemma int_of_float_nonneg (x : Q) : (0 <= x)%Q -> 0 <= int_of_float x.
Proof.
  intros H. apply Qnum_nonneg in H.
  unfold int_of_float. apply Z.quot_pos; lia.
Qed.

Lemma int_of_float_nonpos (x : Q) : (x <= 0)%Q -> int_of_float x <= 0.
Proof.
  intros H. assert (Qnum x <= 0) by (destruct x; unfold Qle in H; simpl in *; lia).
  unfold int_of_float.
  replace (Qnum x) with (- (- Qnum x)) by lia.
  rewrite Z.quot_opp_l by lia.
  assert (0 <= (- Qnum x) ÷ Z.pos (Qden x)) by (apply Z.quot_pos; lia). lia.
Qed.

Lemma int_of_float_le (x y : Q) :
  (x <= y)%Q -> int_of_float x <= int_of_float y.
Proof.
  intros Hxy.
  destruct (Z.le_gt_cases 0 (Qnum x)) as [Hx | Hx].
  - assert (0 <= Qnum y).
    { apply Qnum_nonneg. apply Qle_trans with x; [apply Qnum_nonneg|]; assumption. }
    rewrite !int_of_float_floor by assumption. now apply Qfloor_resp_le.
  - destruct (Z.le_gt_cases 0 (Qnum y)) as [Hy | Hy].
    + apply Z.le_trans with 0.
      * apply int_of_float_nonpos. destruct x; unfold Qle; simpl in *; lia.
      * apply int_of_float_nonneg. now apply Qnum_nonneg.
    + rewrite !int_of_float_ceiling by lia. now apply Qceiling_resp_le.
Qed.

Lemma progress_of_le_100 (elapsed : Q) : progress_of elapsed <= 100.
Proof. unfold progress_of. apply Z.le_min_l. Qed.

Lemma progress_of_nonneg (elapsed : Q) :
  (0 <= elapsed)%Q -> 0 <= progress_of elapsed.
Proof.
  intros H. unfold progress_of. apply Z.min_glb; [lia|].
  apply int_of_float_nonneg.
  apply Qmult_le_0_compat; [|discriminate].
  apply Qmult_le_0_compat; [assumption|discriminate].
Qed.

Lemma progress_of_mono (e1 e2 : Q) :
  (e1 <= e2)%Q -> progress_of e1 <= progress_of e2.
Proof.
  intros H. unfold progress_of.
  apply Z.min_le_compat_l, int_of_float_le.
  apply Qmult_le_compat_r; [|discriminate].
  apply Qmult_le_compat_r; [assumption|discriminate].
Qed.

Lemma str_of_int_neg (p : positive) :
  str_of_int (Z.neg p) = String "-" (NilZero.string_of_uint (Pos.to_uint p)).
Proof. reflexivity. Qed.

Lemma int_of_float_le_m1 (x : Q) : (x <= -1)%Q -> int_of_float x <= -1.
Proof.
  intros H. change (-1) with (int_of_float (-1)). now apply int_of_float_le.
Qed.

Lemma int_of_float_small (x : Q) : (-1 < x)%Q -> (x < 1)%Q -> int_of_float x = 0.
Proof.
  destruct x as [n d]. unfold Qlt, int_of_float; simpl. intros H1 H2.
  apply Z.quot_small_iff; lia.
Qed.

(** The elapsed times of the sample runs below give the same estimates in
    binary64: 5.125 s and 10.25 s into a render, 5 s before its start (the clock
    set back), and 60.5 s and 65.5 s into it. *)
Example estimates_binary64 :
  map progress_of_binary64
      [(1005.125 - 1000)%float; (1010.25 - 1000)%float; (995 - 1000)%float;
       (1060.5 - 1000)%float; (1065.5 - 1000)%float]
  = map (fun e => Some (progress_of e))
        [41 # 8; 41 # 4; -5 # 1; 121 # 2; 131 # 2]%Q
  /\
  map time_estimate_of_binary64
      [(1005.125 - 1000)%float; (1010.25 - 1000)%float; (995 - 1000)%float;
       (1060.5 - 1000)%float; (1065.5 - 1000)%float]
  = map (fun e => Some (time_estimate_of e))
        [41 # 8; 41 # 4; -5 # 1; 121 # 2; 131 # 2]%Q.
Proof. split; vm_compute; reflexivity. Qed.

(** So does every eighth of a second from 0 s to 125 s of elapsed time. *)
Example estimates_binary64_eighths :
  forallb same_estimates (map Z.of_nat (seq 0 1001)) = true.
Proof. vm_compute; reflexivity. Qed.

(** The two arithmetics part at some negative elapsed times: 69 s before
    the start time, binary64 rounds [(-69 / 60) * 100] to just above -115 and
    [int] gives -114, where the exact product is -115.  The statements below
    that give the value of a progress estimate take an elapsed time that is
    not negative, or one of the sample times above. *)
Example progress_binary64_set_back_69s :
  progress_of_binary64 (931 - 1000)%float = Some (-114) /\
  progress_of (-69 # 1) = -115.
Proof. split; vm_compute; reflexivity. Qed.

(** ** Logs *)

Lemma ncalls_app (c : Call) (l l' : list Event) :
  ncalls c (l ++ l') = (ncalls c l + ncalls c l')%nat.
Proof.
  induction l as [|ev l IH]; simpl; [reflexivity|].
  destruct (Call_eqb (kind ev) c); simpl; congruence.
Qed.

Section Emits.

Variable P : Event -> Prop.

Lemma emits_ret {A : Type} (a : A) : emits P (ret a).
Proof. intros l. constructor. Qed.

Lemma emits_raise {A : Type} (e : PyExc) : emits P (@raise A e).
Proof. intros l. constructor. Qed.

Lemma emits_blocked {A : Type} : emits P (@blocked A).
Proof. intros l. constructor. Qed.

Lemma emits_call {A : Type} (ev : Event) (answer : list Event -> outcome A) :
  P ev -> emits P (fun l => call ev (answer l) l).
Proof.
  intros H l. unfold call; simpl. repeat constructor; exact H.
Qed.

Lemma emits_bind {A B : Type} (m : M A) (f : A -> M B) :
  emits P m -> (forall a, emits P (f a)) -> emits P (bind m f).
Proof.
  intros Hm Hf l. unfold bind. specialize (Hm l).
  destruct (m l) as [[a|e|] evs]; simpl in *; try assumption.
  specialize (Hf a (l ++ evs)).
  destruct (f a (l ++ evs)) as [r evs']; simpl in *.
  apply Forall_app; split; assumption.
Qed.

Lemma emits_try_except {A : Type} (body : M A)
      (clauses : list ((PyExc -> bool) * (PyExc -> M A))) :
  emits P body ->
  (forall accepts handler e, In (accepts, handler) clauses -> emits P (handler e)) ->
  emits P (try_except body clauses).
Proof.
  intros Hb Hc l. unfold try_except. specialize (Hb l).
  destruct (body l) as [[a|e|] evs]; simpl in *; try assumption.
  assert (Hh : forall h, find_handler clauses e = Some h -> emits P h).
  { clear - Hc. induction clauses as [|[acc hd] rest IH]; simpl; [discriminate|].
    intros h. destruct (acc e).
    - intros [= <-]. apply (Hc acc hd e). now left.
    - apply IH. intros a' h' e' Hin. apply (Hc a' h' e'). now right. }
  destruct (find_handler clauses e) as [h|]; simpl; [|assumption].
  specialize (Hh h eq_refl (l ++ evs)).
  destruct (h (l ++ evs)) as [r evs']; simpl in *.
  apply Forall_app; split; assumption.
Qed.

Lemma emits_for_each {A : Type} (xs : list A) (body : A -> M unit) :
  (forall x, In x xs -> emits P (body x)) -> emits P (for_each xs body).
Proof.
  induction xs as [|x xs IH]; simpl; intros H.
  - apply emits_ret.
  - apply emits_bind; [apply H; now left|].
    intros _. apply IH. intros y Hy. apply H. now right.
Qed.

End Emits.

Lemma emits_weaken {A : Type} (P Q : Event -> Prop) (m : M A) :
  (forall ev, P ev -> Q ev) -> emits P m -> emits Q m.
Proof. intros H Hm l. eapply Forall_impl; [exact H|apply Hm]. Qed.

(** ** What the worker writes *)

Section Classification.

Variable w : World.

Lemma heartbeat_loop_events (u : string) (i : nat) :
  forall fuel l,
    (i <= ncalls CTime l)%nat ->
    Forall (job_event w u) (snd (heartbeat_loop w fuel u (time_at w i) l)).
Proof.
  induction fuel as [|fuel IH]; intros l Hi; simpl; [constructor|].
  unfold bind at 1. unfold proc_poll at 1, call.
  destruct (poll_at w (ncalls CPoll l)) as [[c|]|e]; simpl;
    try (repeat constructor; fail).
  unfold bind at 1, time_time at 1, call; simpl.
  unfold bind at 1, send_status_update, client_update_request at 1, call.
  set (hb := EvUpdateRequest _ _ _ _).
  assert (Hhb : job_event w u hb).
  { exists i, (ncalls CTime (l ++ [EvPoll])). split; [|reflexivity].
    rewrite ncalls_app. lia. }
  destruct (update_request_at w _); simpl;
    [|repeat constructor; exact Hhb].
  unfold bind at 1, time_sleep at 1, call; simpl.
  match goal with
  | |- context [heartbeat_loop w fuel u _ ?l'] =>
      specialize (IH l'); destruct (heartbeat_loop w fuel u (time_at w i) l')
        as [r evs]
  end. simpl in *.
  repeat constructor; try exact Hhb.
  apply IH. rewrite !ncalls_app. lia.
Qed.

Lemma render_events (fuel : nat) (u umap useq uconfig : string) :
  emits (job_event w u) (render w fuel u umap useq uconfig).
Proof.
  intros l. unfold render.
  unfold bind at 1, subprocess_Popen at 1, call.
  destruct (Popen_at w _); simpl; [|repeat constructor].
  unfold bind at 1, time_time at 1, call; simpl.
  unfold bind at 1.
  set (l1 := l ++ [EvPopen (command u umap useq uconfig) (MODULE_PATH w)]).
  pose proof (heartbeat_loop_events u (ncalls CTime l1) fuel (l1 ++ [EvTime]))
    as H.
  destruct (heartbeat_loop w fuel u _ _) as [[c|e|] evs]; simpl in *;
    try (repeat constructor; apply H; rewrite !ncalls_app; lia).
  unfold bind at 1, proc_communicate at 1, call.
  destruct (communicate_at w _); simpl.
  - repeat constructor. apply Forall_app. split; [|repeat constructor].
    apply H. rewrite !ncalls_app; lia.
  - repeat constructor. apply Forall_app. split; [|repeat constructor].
    apply H. rewrite !ncalls_app; lia.
Qed.

Lemma update_events (rrequest : RenderRequest) (p : Z) (s : RenderStatus)
      (t : string) :
  job_event w (uid rrequest) (EvUpdate (uid rrequest) p s t) ->
  emits (job_event w (uid rrequest)) (RenderRequest_update w rrequest p s t).
Proof. intros H. unfold RenderRequest_update. now apply emits_call. Qed.

Lemma try_body_events (fuel : nat) (rrequest : RenderRequest) :
  emits (job_event w (uid rrequest))
        (try_body w fuel (uid rrequest) rrequest).
Proof.
  unfold try_body.
  apply emits_bind; [apply update_events; left; reflexivity|]. intros _.
  apply emits_bind; [apply render_events|]. intros [[c out] err].
  apply emits_bind.
  - destruct (negb (c =? 0)%Z); [|apply emits_ret].
    apply emits_bind.
    + unfold decode. destruct (utf8_valid err); [apply emits_ret|apply emits_raise].
    + intros msg. apply emits_raise.
  - intros _. apply update_events. right; left; reflexivity.
Qed.

Lemma process_job_events (fuel : nat) (u : string) :
  emits (job_event w u) (process_job w fuel u).
Proof.
  unfold process_job. intros l.
  unfold bind, RenderRequest_from_db, call.
  destruct (from_db_at w _) as [r|e]; simpl; [|repeat constructor].
  set (rr := {| uid := u |}).
  assert (H : emits (job_event w (uid rr))
                    (try_except (try_body w fuel (uid rr) rr)
                       [(isinstance_CalledProcessError, on_error w rr);
                        (isinstance_Exception, on_error w rr)])).
  { apply emits_try_except; [apply try_body_events|].
    intros acc h e [[= <- <-]|[[= <- <-]|[]]];
      apply update_events; right; right; reflexivity. }
  specialize (H (l ++ [EvFromDb u])). simpl in H.
  destruct (try_except _ _ _) as [r' evs]; simpl in *.
  constructor; [reflexivity|exact H].
Qed.

Lemma worker_pass_events (fuel : nat) (l : list Event) :
  exists us,
    Forall (pass_event w us) (snd (worker_pass w fuel l)) /\
    forall rrequests,
      get_all_requests_at w (ncalls CGetAllRequests l) = Returns rrequests ->
      us = map uid (filter (eligible) rrequests).
Proof.
  unfold worker_pass, bind at 1, client_get_all_requests, call.
  destruct (get_all_requests_at w _) as [rs|e]; simpl.
  - exists (map uid (filter eligible rs)). split; [|now intros ? [= <-]].
    match goal with
    | |- context [bind ?m ?f ?l'] =>
        assert (H : emits (pass_event w (map uid (filter eligible rs))) (bind m f))
    end.
    { apply emits_bind.
      - apply emits_for_each. intros u Hu.
        eapply emits_weaken; [|apply process_job_events].
        intros ev Hev. right; right. exists u. split; [exact Hu|exact Hev].
      - intros _. unfold time_sleep. apply emits_call. right; left; reflexivity. }
    specialize (H (l ++ [EvGetAllRequests])).
    destruct (bind _ _ _) as [r evs]; simpl in *.
    constructor; [now left|exact H].
  - exists []. split; [|discriminate]. repeat constructor. 
Qed.

End Classification.

(** ** The shape of the driver's log *)

Section Shape.

Variable w : World.

Lemma heartbeat_loop_shape (u : string) (start_time : Q) :
  forall fuel l,
  exists n r ending,
    heartbeat_loop w fuel u start_time l
    = (r, ticks w u start_time (ncalls CTime l) n ++ ending) /\
    alive_for w l n /\
    loop_ending w u start_time fuel l n r ending.
Proof.
  induction fuel as [|fuel IH]; intros l.
  - exists O, Blocked, []. split; [reflexivity|split; [intros i Hi; lia|now constructor]].
  - simpl. unfold bind at 1, proc_poll at 1, call.
    destruct (poll_at w (ncalls CPoll l)) as [[c|]|e] eqn:Hpoll; simpl.
    + exists O, (Ret c), [EvPoll]. split; [reflexivity|split; [intros i Hi; lia|]].
      constructor; [lia|]. now rewrite Nat.add_0_r.
    + unfold bind at 1, time_time at 1, call; simpl.
      unfold bind at 1, send_status_update, client_update_request at 1, call.
      rewrite !ncalls_app; simpl. rewrite !Nat.add_0_r.
      destruct (update_request_at w (ncalls CUpdateRequest l)) as [[]|e] eqn:Hupd;
        simpl.
      * unfold bind at 1, time_sleep at 1, call; simpl.
        match goal with
        | |- context [heartbeat_loop w fuel u start_time ?l0] =>
            set (l' := l0)
        end.
        destruct (IH l') as (n & r & ending & Heq & Halive & Hend).
        rewrite Heq; clear Heq.
        assert (HP : forall k, (ncalls CPoll l + S k)%nat
                               = (ncalls CPoll l' + k)%nat)
          by (intros k; subst l'; rewrite !ncalls_app; simpl; lia).
        assert (HU : forall k, (ncalls CUpdateRequest l + S k)%nat
                               = (ncalls CUpdateRequest l' + k)%nat)
          by (intros k; subst l'; rewrite !ncalls_app; simpl; lia).
        assert (HT : forall k, (ncalls CTime l + S k)%nat
                               = (ncalls CTime l' + k)%nat)
          by (intros k; subst l'; rewrite !ncalls_app; simpl; lia).
        exists (S n), r, ending. split; [|split].
        -- simpl. unfold heartbeat.
           replace (S (ncalls CTime l)) with (ncalls CTime l')
             by (rewrite <- (Nat.add_0_r (ncalls CTime l')), <- HT; lia).
           reflexivity.
        -- intros [|i] Hi.
           ++ rewrite !Nat.add_0_r. now split.
           ++ rewrite HP, HU. apply Halive. lia.
        -- inversion Hend; subst r ending.
           ++ apply ends_exited; [lia|]. now rewrite HP.
           ++ apply ends_poll_raised; [lia|]. now rewrite HP.
           ++ rewrite <- HT.
              apply ends_heartbeat_raised; [lia| |]; now rewrite ?HP, ?HU.
           ++ apply ends_blocked. lia.
      * exists O, (Exc e),
          [EvPoll; EvTime;
           heartbeat u (time_at w (ncalls CTime l) - start_time)].
        split; [reflexivity|split; [intros i Hi; lia|]].
        replace (ncalls CTime l) with (ncalls CTime l + 0)%nat at 1 by lia.
        apply ends_heartbeat_raised; [lia| |]; now rewrite Nat.add_0_r.
    + exists O, (Exc e), [EvPoll]. split; [reflexivity|split; [intros i Hi; lia|]].
      constructor; [lia|]. now rewrite Nat.add_0_r.
Qed.

End Shape.

(** ** The driver and the per-job step, unfolded *)

Lemma ncalls_none (c : Call) (evs : list Event) :
  Forall (fun ev => kind ev <> c) evs -> ncalls c evs = O.
Proof.
  induction 1 as [|ev evs H _ IH]; simpl; [reflexivity|].
  destruct (Call_eqb (kind ev) c) eqn:E; [|exact IH].
  exfalso. apply H. destruct (kind ev), c; (reflexivity || discriminate).
Qed.

(** Counting the calls of a log built by appending. *)
Ltac count_calls H :=
  simpl; repeat (rewrite ncalls_app; simpl); rewrite ?H; simpl;
  rewrite ?Nat.add_0_r.

Ltac same_step H :=
  count_calls H; rewrite <- ?app_assoc; simpl; rewrite ?app_nil_r;
  first [ reflexivity | f_equal; do 2 f_equal; lia ].

Section Unfolding.

Variable w : World.

Lemma heartbeat_loop_calls (u : string) (start_time : Q) (fuel : nat) :
  emits loop_call (heartbeat_loop w fuel u start_time).
Proof.
  induction fuel as [|fuel IH]; simpl; [apply emits_blocked|].
  apply emits_bind; [now apply emits_call|].
  intros [c|]; [apply emits_ret|].
  apply emits_bind; [now apply emits_call|]. intros now.
  apply emits_bind; [now apply emits_call|]. intros _.
  apply emits_bind; [now apply emits_call|]. intros _.
  exact IH.
Qed.

Lemma render_calls (fuel : nat) (u umap useq uconfig : string) :
  emits driver_call (render w fuel u umap useq uconfig).
Proof.
  unfold render.
  apply emits_bind; [now apply emits_call|]. intros _.
  apply emits_bind; [now apply emits_call|]. intros start.
  apply emits_bind.
  - eapply emits_weaken; [|apply heartbeat_loop_calls].
    intros ev. unfold loop_call, driver_call. now destruct (kind ev).
  - intros c. apply emits_bind; [now apply emits_call|]. intros out.
    apply emits_ret.
Qed.

Lemma render_unfold (fuel : nat) (u umap useq uconfig : string)
      (l : list Event) :
  render w fuel u umap useq uconfig l = render_cases w fuel u umap useq uconfig l.
Proof.
  unfold render, render_cases.
  unfold bind at 1, subprocess_Popen at 1, call.
  destruct (Popen_at w (ncalls CPopen l)) as [[]|e]; simpl; [|reflexivity].
  unfold bind at 1, time_time at 1, call; simpl.
  rewrite <- app_assoc; simpl.
  count_calls (eq_refl 0%nat).
  unfold bind at 1.
  match goal with
  | |- context [heartbeat_loop w fuel u ?s ?l'] =>
      assert (Hnone : ncalls CCommunicate
                        (snd (heartbeat_loop w fuel u s l')) = O)
  end.
  { apply ncalls_none. eapply Forall_impl; [|apply heartbeat_loop_calls].
    intros ev H E. unfold loop_call in H. now rewrite E in H. }
  destruct (heartbeat_loop w fuel u _ _) as [[c|e|] evs]; simpl in *;
    try reflexivity.
  unfold bind, proc_communicate, ret, call.
  count_calls Hnone.
  destruct (communicate_at w (ncalls CCommunicate l)) as [out|e]; simpl;
    rewrite ?app_nil_r; reflexivity.
Qed.

Lemma render_no_update (fuel : nat) (u umap useq uconfig : string)
      (l : list Event) :
  ncalls CUpdate (snd (render w fuel u umap useq uconfig l)) = O.
Proof.
  apply ncalls_none. eapply Forall_impl; [|apply render_calls].
  intros ev H E. unfold driver_call in H. now rewrite E in H.
Qed.

Lemma process_job_unfold (fuel : nat) (u : string) (l : list Event) :
  process_job w fuel u l = process_job_cases w fuel u l.
Proof.
  unfold process_job, process_job_cases.
  unfold bind at 1, RenderRequest_from_db at 1, call.
  destruct (from_db_at w (ncalls CFromDb l)) as [r|e]; simpl; [|reflexivity].
  unfold try_except, try_body.
  unfold bind at 1, RenderRequest_update at 1, call; simpl.
  rewrite !ncalls_app; simpl. rewrite !Nat.add_0_r.
  destruct (update_at w (ncalls CUpdate l)) as [[]|e] eqn:Hclaim; simpl.
  - rewrite <- app_assoc; simpl.
    pose proof (render_no_update fuel u (umap_path r) (useq_path r)
                  (uconfig_path r) (l ++ [EvFromDb u; claim_write u])) as Hnone.
    unfold claim_write, finished_write, errored_write in *.
    unfold bind at 1.
    destruct (render w fuel u (umap_path r) (useq_path r) (uconfig_path r) _)
      as [[[[c out] err]|e|] evs]; simpl in *.
    + unfold bind, decode, ret, raise, on_error, RenderRequest_update, call.
      destruct (c =? 0)%Z; simpl.
      * count_calls Hnone.
        replace (ncalls CUpdate l + 1)%nat with (S (ncalls CUpdate l)) by lia.
        destruct (update_at w (S (ncalls CUpdate l))) as [[]|e]; simpl.
        -- reflexivity.
        -- destruct e; same_step Hnone.
      * destruct (utf8_valid err); same_step Hnone.
    + unfold on_error, RenderRequest_update, call.
      destruct e; same_step Hnone.
    + reflexivity.
  - unfold on_error, RenderRequest_update, call.
    destruct e; same_step Hclaim.
Qed.

End Unfolding.

(** ** The driver returns when, and only when, the process has exited *)

Section Driver.

Variable w : World.

Lemma heartbeat_loop_exits (u : string) (start_time : Q) (fuel : nat)
      (l : list Event) (n : nat) (returncode : Z) :
  (n < fuel)%nat ->
  alive_for w l n ->
  poll_at w (ncalls CPoll l + n) = Returns (Some returncode) ->
  heartbeat_loop w fuel u start_time l
  = (Ret returncode, ticks w u start_time (ncalls CTime l) n ++ [EvPoll]).
Proof.
  intros Hfuel Halive Hpoll.
  destruct (heartbeat_loop_shape w u start_time fuel l)
    as (n' & r & ending & Heq & Halive' & Hend).
  destruct (Nat.lt_trichotomy n' n) as [Hlt | [-> | Hgt]].
  - destruct (Halive n' Hlt) as [Hp Hu].
    inversion Hend; subst; try congruence; lia.
  - inversion Hend; subst; try congruence; lia.
  - destruct (Halive' n Hgt) as [Hp _]. congruence.
Qed.

Lemma heartbeat_loop_returned (u : string) (start_time : Q) (fuel : nat)
      (l : list Event) (returncode : Z) (evs : list Event) :
  heartbeat_loop w fuel u start_time l = (Ret returncode, evs) ->
  exists n,
    (n < fuel)%nat /\ alive_for w l n /\
    poll_at w (ncalls CPoll l + n) = Returns (Some returncode) /\
    evs = ticks w u start_time (ncalls CTime l) n ++ [EvPoll].
Proof.
  intros H.
  destruct (heartbeat_loop_shape w u start_time fuel l)
    as (n & r & ending & Heq & Halive & Hend).
  rewrite H in Heq. injection Heq as <- ->.
  exists n. inversion Hend; subst.
  repeat (split; [assumption|]). reflexivity.
Qed.

Lemma alive_for_spawned (u umap useq uconfig : string) (l : list Event)
      (n : nat) :
  alive_for w (spawned w u umap useq uconfig l) n <-> alive_for w l n.
Proof.
  unfold alive_for, spawned. rewrite !ncalls_app; simpl.
  rewrite !Nat.add_0_r. reflexivity.
Qed.

End Driver.

(** C8: [render] returns a value exactly when the spawn succeeded, the
    process was found alive at [n] polls (each followed by a heartbeat that
    went through) and exited at the next one, within the fuel, and
    [communicate] gave the captured output; the value is then the exit code
    that last poll reported with the captured standard output and standard
    error, and the driver's log is the spawn, the start-time reading, the [n]
    heartbeat turns and the final poll and [communicate]. *)
Theorem render_returns_exit_triple
        (w : World) (fuel : nat) (u umap useq uconfig : string)
        (l : list Event) (returncode : Z) (stdout stderr : bytes)
        (evs : list Event) :
  render w fuel u umap useq uconfig l = (Ret (returncode, stdout, stderr), evs)
  <->
  exists n,
    (n < fuel)%nat /\
    Popen_at w (ncalls CPopen l) = Returns tt /\
    alive_for w l n /\
    poll_at w (ncalls CPoll l + n) = Returns (Some returncode) /\
    communicate_at w (ncalls CCommunicate l) = Returns (stdout, stderr) /\
    evs = EvPopen (command u umap useq uconfig) (MODULE_PATH w) :: EvTime
            :: ticks w u (time_at w (ncalls CTime l)) (S (ncalls CTime l)) n
            ++ [EvPoll; EvCommunicate].
Proof.
  rewrite render_unfold. unfold render_cases.
  assert (HT : ncalls CTime (spawned w u umap useq uconfig l)
               = S (ncalls CTime l))
    by (unfold spawned; rewrite ncalls_app; simpl; lia).
  assert (HP : ncalls CPoll (spawned w u umap useq uconfig l) = ncalls CPoll l)
    by (unfold spawned; rewrite ncalls_app; simpl; lia).
  fold (spawned w u umap useq uconfig l).
  split.
  - destruct (Popen_at w (ncalls CPopen l)) as [[]|e]; [|discriminate].
    destruct (heartbeat_loop w fuel u _ _) as [[c|e|] evs'] eqn:Hloop;
      try discriminate.
    destruct (communicate_at w (ncalls CCommunicate l)) as [[out err]|e];
      [|discriminate].
    simpl. intros [= -> -> -> <-].
    apply heartbeat_loop_returned in Hloop.
    destruct Hloop as (n & Hn & Halive & Hpoll & ->).
    exists n. rewrite HT, HP in *. apply alive_for_spawned in Halive.
    repeat (split; [assumption || reflexivity|]).
    now rewrite <- app_assoc.
  - intros (n & Hn & -> & Halive & Hpoll & -> & ->).
    rewrite (heartbeat_loop_exits w u _ fuel _ n returncode Hn).
    + simpl. rewrite HT, <- app_assoc. reflexivity.
    + now apply alive_for_spawned.
    + now rewrite HP.
Qed.

Lemma calm_world_alive : alive_for calm_world [] 2.
Proof.
  intros i Hi. destruct i as [|[|i]]; [split; reflexivity..|lia].
Qed.

Lemma render_returns_exit_triple_witness :
  render calm_world 5 "a1" "/Game/Maps/Main" "/Game/Sequences/Shot010"
         "/Game/Presets/Final" []
  = (Ret (0, [x4c; x6f; x67], [xff; x21]),
     EvPopen (command "a1" "/Game/Maps/Main" "/Game/Sequences/Shot010"
                      "/Game/Presets/Final") "C:\farm\unrealRenderFarm"
       :: EvTime
       :: ticks calm_world "a1" (time_at calm_world 0) 1 2
       ++ [EvPoll; EvCommunicate]).
Proof.
  apply (proj2 (render_returns_exit_triple calm_world 5 "a1" "/Game/Maps/Main"
                  "/Game/Sequences/Shot010" "/Game/Presets/Final" []
                  0 [x4c; x6f; x67] [xff; x21] _)).
  exists 2%nat.
  split; [lia|]. split; [reflexivity|]. split; [exact calm_world_alive|].
  split; [reflexivity|]. split; reflexivity.
Defined.

(** ** The heartbeats of one run of the driver *)

Lemma heartbeats_app (evs evs' : list Event) :
  heartbeats (evs ++ evs') = heartbeats evs ++ heartbeats evs'.
Proof. apply filter_app. Qed.

Lemma heartbeats_ticks (w : World) (u : string) (start_time : Q) (n t : nat) :
  heartbeats (ticks w u start_time t n)
  = map (fun j => heartbeat u (time_at w j - start_time)) (seq t n).
Proof.
  revert t. induction n as [|n IH]; intros t; simpl; [reflexivity|].
  now rewrite IH.
Qed.


Lemma heartbeats_loop (w : World) (u : string) (start_time : Q) (fuel : nat)
      (l : list Event) :
  exists k,
    heartbeats (snd (heartbeat_loop w fuel u start_time l))
    = map (fun j => heartbeat u (time_at w j - start_time))
          (seq (ncalls CTime l) k).
Proof.
  destruct (heartbeat_loop_shape w u start_time fuel l)
    as (n & r & ending & Heq & _ & Hend).
  rewrite Heq; simpl. rewrite heartbeats_app, heartbeats_ticks.
  inversion Hend; subst; simpl.
  - exists n. now rewrite app_nil_r.
  - exists n. now rewrite app_nil_r.
  - exists (S n). now rewrite seq_S, map_app.
  - exists fuel. now rewrite app_nil_r.
Qed.

Lemma heartbeats_render (w : World) (fuel : nat) (u umap useq uconfig : string)
      (l : list Event) :
  exists k,
    heartbeats (snd (render w fuel u umap useq uconfig l))
    = map (fun j => heartbeat u (time_at w j - time_at w (ncalls CTime l)))
          (seq (S (ncalls CTime l)) k).
Proof.
  rewrite render_unfold. unfold render_cases.
  destruct (Popen_at w (ncalls CPopen l)) as [[]|e]; [|now exists O].
  fold (spawned w u umap useq uconfig l).
  destruct (heartbeats_loop w u (time_at w (ncalls CTime l)) fuel
              (spawned w u umap useq uconfig l)) as [k Hk].
  replace (ncalls CTime (spawned w u umap useq uconfig l))
    with (S (ncalls CTime l)) in Hk
    by (unfold spawned; rewrite ncalls_app; simpl; lia).
  exists k.
  destruct (heartbeat_loop w fuel u _ _) as [[c|e|] evs]; simpl in *;
    try exact Hk.
  destruct (communicate_at w (ncalls CCommunicate l)); simpl;
    change (heartbeats (evs ++ [EvCommunicate])
            = map (fun j => heartbeat u
                              (time_at w j - time_at w (ncalls CTime l)))
                  (seq (S (ncalls CTime l)) k));
    rewrite heartbeats_app, Hk; simpl; apply app_nil_r.
Qed.

Lemma heartbeats_process_job (w : World) (fuel : nat) (u : string)
      (l : list Event) :
  exists t k,
    heartbeats (snd (process_job w fuel u l))
    = map (fun j => heartbeat u (time_at w j - time_at w t)) (seq (S t) k).
Proof.
  rewrite process_job_unfold. unfold process_job_cases.
  destruct (from_db_at w (ncalls CFromDb l)) as [r|e]; [|now exists O, O].
  destruct (update_at w (ncalls CUpdate l)) as [[]|e]; [|now exists O, O].
  destruct (heartbeats_render w fuel u (umap_path r) (useq_path r)
              (uconfig_path r) (l ++ [EvFromDb u; claim_write u])) as [k Hk].
  exists (ncalls CTime (l ++ [EvFromDb u; claim_write u])), k.
  destruct (render w fuel u _ _ _ _) as [[[[c out] err]|e|] evs]; simpl in *.
  - destruct (c =? 0)%Z; [destruct (update_at w (S (ncalls CUpdate l)))|];
      simpl;
      match goal with
      | |- heartbeats (evs ++ ?tl) = _ =>
          rewrite heartbeats_app, Hk; simpl; apply app_nil_r
      end.
  - match goal with
    | |- heartbeats (evs ++ ?tl) = _ =>
        rewrite heartbeats_app, Hk; simpl; apply app_nil_r
    end.
  - exact Hk.
Qed.

Lemma elapsed_nonneg (w : World) (i j : nat) :
  clock_monotone w -> (i <= j)%nat -> (0 <= time_at w j - time_at w i)%Q.
Proof.
  intros Hw Hij. apply (Qplus_le_l _ _ (time_at w i)).
  ring_simplify. now apply Hw.
Qed.

Lemma progress_sorted (w : World) (u : string) (t0 : nat) :
  clock_monotone w ->
  forall k t,
    StronglySorted Z.le
      (progress_values
         (map (fun j => heartbeat u (time_at w j - time_at w t0)) (seq t k))).
Proof.
  intros Hw. induction k as [|k IH]; intros t; simpl; [constructor|].
  constructor; [apply IH|].
  apply Forall_forall. intros p Hp.
  unfold progress_values in Hp. apply in_flat_map in Hp.
  destruct Hp as (ev & Hev & Hp).
  apply in_map_iff in Hev. destruct Hev as (j & <- & Hj).
  apply in_seq in Hj. simpl in Hp. destruct Hp as [<-|[]].
  apply progress_of_mono.
  apply Qplus_le_l. apply Hw. lia.
Qed.








Lemma steady_clock_monotone : clock_monotone calm_world.
Proof.
  intros i j Hij. simpl. unfold steady_clock.
  apply Qplus_le_r. apply Qmult_le_l; [reflexivity|].
  rewrite <- Zle_Qle. lia.
Qed.

(** ** Progress values *)

(** C7 (amended): provided the readings of [time.time()] never decrease,
    every progress value one pass writes lies between 0 and 100, and the
    progress values of the heartbeats sent for one job are non-decreasing in
    the order they are sent. *)
Theorem progress_in_range_and_monotone (w : World) (fuel : nat) :
  clock_monotone w ->
  (forall l, Forall progress_in_range (snd (worker_pass w fuel l))) /\
  (forall u l,
      StronglySorted Z.le
        (progress_values (heartbeats (snd (process_job w fuel u l))))).
Proof.
  intros Hclock. split.
  - intros l. destruct (worker_pass_events w fuel l) as (us & Hall & _).
    eapply Forall_impl; [|exact Hall].
    intros ev [-> | [-> | (u & _ & Hev)]]; try discriminate.
    destruct ev; try discriminate; simpl in Hev.
    + destruct Hev as [E | [E | E]]; injection E as -> -> -> ->;
        intros q [= <-]; lia.
    + destruct Hev as (i & j & Hij & E). injection E as -> -> -> ->.
      intros q [= <-]. split; [|apply progress_of_le_100].
      apply progress_of_nonneg. now apply elapsed_nonneg.
  - intros u l. destruct (heartbeats_process_job w fuel u l) as (t & k & ->).
    now apply progress_sorted.
Qed.

Lemma progress_in_range_and_monotone_witness :
  clock_monotone calm_world /\
  Forall progress_in_range (snd (worker_pass calm_world 5 [])) /\
  StronglySorted Z.le
    (progress_values
       (heartbeats (snd (process_job calm_world 5 "a1" [EvGetAllRequests])))).
Proof.
  split; [exact steady_clock_monotone|].
  split; apply (progress_in_range_and_monotone calm_world 5 steady_clock_monotone).
Defined.

(** With the clock set back by five seconds after the start time was
    taken, the first heartbeat of job a1 carries progress -8. *)
Lemma progress_negative_when_clock_set_back :
  In (EvUpdateRequest "a1" (-8) in_progress "65s")
     (snd (worker_pass clock_set_back_world 5 [])) /\
  ~ Forall progress_in_range (snd (worker_pass clock_set_back_world 5 [])).
Proof.
  assert (H : In (EvUpdateRequest "a1" (-8) in_progress "65s")
                 (snd (worker_pass clock_set_back_world 5 []))).
  { vm_compute. do 7 right. left. reflexivity. }
  split; [exact H|].
  intros Hall. rewrite Forall_forall in Hall.
  specialize (Hall _ H (-8) eq_refl). lia.
Qed.

(** ** The time estimate of a heartbeat *)

Lemma time_estimate_negative (elapsed : Q) :
  (61 <= elapsed)%Q ->
  int_of_float (60 - elapsed)%Q < 0 /\
  exists digits, time_estimate_of elapsed = String "-" (digits ++ "s")%string.
Proof.
  intros H.
  assert (Hm : int_of_float (60 - elapsed)%Q <= -1).
  { apply int_of_float_le_m1.
    apply (Qplus_le_l _ _ elapsed). ring_simplify.
    apply (Qplus_le_l _ _ 1). ring_simplify.
    exact H. }
  split; [lia|].
  unfold time_estimate_of.
  destruct (int_of_float (60 - elapsed)%Q) as [|p|p]; try lia.
  rewrite str_of_int_neg. simpl. eauto.
Qed.

Lemma time_estimate_zero (elapsed : Q) :
  (59 < elapsed)%Q -> (elapsed < 61)%Q -> time_estimate_of elapsed = "0s".
Proof.
  intros H1 H2. unfold time_estimate_of.
  rewrite int_of_float_small; [reflexivity| |].
  - apply (Qplus_lt_l _ _ elapsed). ring_simplify.
    apply (Qplus_lt_l _ _ 1). ring_simplify. exact H2.
  - apply (Qplus_lt_l _ _ elapsed). ring_simplify.
    apply (Qplus_lt_l _ _ (-1)). ring_simplify. exact H1.
Qed.

(** C9 (amended): every heartbeat the driver sends carries the time estimate
    [str(int(60 - elapsed)) + "s"] for the time elapsed since the start
    reading, with no lower clamp; [int] truncates toward zero, so the string
    is negative (a minus sign, digits, "s") for every tick at which at least
    61 seconds have elapsed, and it is "0s" for a tick between 60 and 61
    seconds. *)
Theorem heartbeat_time_estimate_sign
        (w : World) (fuel : nat) (u umap useq uconfig : string)
        (l : list Event) (ev : Event) :
  In ev (heartbeats (snd (render w fuel u umap useq uconfig l))) ->
  exists j,
    ev = EvUpdateRequest u
           (progress_of (time_at w j - time_at w (ncalls CTime l)))
           in_progress
           (str_of_int
              (int_of_float (60 - (time_at w j - time_at w (ncalls CTime l))))
            ++ "s")%string /\
    ((61 <= time_at w j - time_at w (ncalls CTime l))%Q ->
     int_of_float (60 - (time_at w j - time_at w (ncalls CTime l))) < 0 /\
     exists digits,
       time_estimate_of (time_at w j - time_at w (ncalls CTime l))
       = String "-" (digits ++ "s")%string) /\
    ((60 < time_at w j - time_at w (ncalls CTime l))%Q ->
     (time_at w j - time_at w (ncalls CTime l) < 61)%Q ->
     time_estimate_of (time_at w j - time_at w (ncalls CTime l)) = "0s").
Proof.
  intros Hin.
  destruct (heartbeats_render w fuel u umap useq uconfig l) as [k Hk].
  rewrite Hk in Hin. apply in_map_iff in Hin.
  destruct Hin as (j & <- & _).
  exists j. split; [reflexivity|]. split.
  - apply time_estimate_negative.
  - intros H1 H2. apply time_estimate_zero; [|exact H2].
    eapply Qlt_trans; [|exact H1]. reflexivity.
Qed.

Lemma heartbeat_time_estimate_sign_witness :
  In (EvUpdateRequest "a1" 100 in_progress "-5s")
     (heartbeats (snd (render slow_render_world 5 "a1" "/Game/Maps/Main"
                              "/Game/Sequences/Shot010" "/Game/Presets/Final"
                              []))) /\
  exists j,
    EvUpdateRequest "a1" 100 in_progress "-5s"
    = EvUpdateRequest "a1"
        (progress_of (time_at slow_render_world j - time_at slow_render_world 0))
        in_progress
        (str_of_int
           (int_of_float
              (60 - (time_at slow_render_world j - time_at slow_render_world 0)))
         ++ "s")%string /\
    ((61 <= time_at slow_render_world j - time_at slow_render_world 0)%Q ->
     int_of_float
       (60 - (time_at slow_render_world j - time_at slow_render_world 0)) < 0 /\
     exists digits,
       time_estimate_of (time_at slow_render_world j - time_at slow_render_world 0)
       = String "-" (digits ++ "s")%string) /\
    ((60 < time_at slow_render_world j - time_at slow_render_world 0)%Q ->
     (time_at slow_render_world j - time_at slow_render_world 0 < 61)%Q ->
     time_estimate_of (time_at slow_render_world j - time_at slow_render_world 0)
     = "0s").
Proof.
  assert (Hin : In (EvUpdateRequest "a1" 100 in_progress "-5s")
     (heartbeats (snd (render slow_render_world 5 "a1" "/Game/Maps/Main"
                              "/Game/Sequences/Shot010" "/Game/Presets/Final"
                              [])))).
  { vm_compute. right. left. reflexivity. }
  split; [exact Hin|].
  exact (heartbeat_time_estimate_sign slow_render_world 5 "a1"
           "/Game/Maps/Main" "/Game/Sequences/Shot010" "/Game/Presets/Final"
           [] _ Hin).
Defined.

(** A tick 60.5 seconds after the start: the process has run for more than
    60 seconds and the string sent is "0s", which is not negative. *)
Lemma tick_after_60s_sends_0s :
  (60 < time_at slow_render_world 1 - time_at slow_render_world 0)%Q /\
  heartbeats (snd (render slow_render_world 5 "a1" "/Game/Maps/Main"
                          "/Game/Sequences/Shot010" "/Game/Presets/Final" []))
  = [ EvUpdateRequest "a1" 100 in_progress "0s";
      EvUpdateRequest "a1" 100 in_progress "-5s" ].
Proof. split; [reflexivity|]. vm_compute. reflexivity. Qed.

(** ** Which jobs a pass writes *)

Lemma RenderStatus_eqb_eq (a b : RenderStatus) :
  RenderStatus_eqb a b = true <-> a = b.
Proof. destruct a, b; simpl; split; (reflexivity || discriminate). Qed.

Lemma eligible_iff (r : RenderRequest) :
  eligible r = true <-> worker r = WORKER_NAME /\ status r = ready_to_start.
Proof.
  unfold eligible. rewrite andb_true_iff, String.eqb_eq, RenderStatus_eqb_eq.
  reflexivity.
Qed.

Lemma job_event_uid (w : World) (u : string) (ev : Event) (u' : string) :
  job_event w u ev -> written_uid ev = Some u' -> u' = u.
Proof.
  destruct ev; simpl; try discriminate.
  - intros [E | [E | E]] [= <-]; now injection E.
  - intros (i & j & _ & E) [= <-]. now injection E.
Qed.

(** C1: in one pass, every status write (by [rrequest.update] or by a
    heartbeat) is addressed to the identifier of a fetched job whose worker
    is [WORKER_NAME] and whose status is [ready_to_start]; hence a fetched
    job with another worker or another status, the identifier being its own,
    is never written. *)
Theorem worker_pass_writes_only_eligible
        (w : World) (fuel : nat) (l : list Event)
        (rrequests : list RenderRequest) :
  get_all_requests_at w (ncalls CGetAllRequests l) = Returns rrequests ->
  (forall ev u,
      In ev (snd (worker_pass w fuel l)) ->
      written_uid ev = Some u ->
      exists r, In r rrequests /\ uid r = u /\
                worker r = WORKER_NAME /\ status r = ready_to_start)
  /\
  (forall j,
      In j rrequests ->
      worker j <> WORKER_NAME \/ status j <> ready_to_start ->
      (forall r, In r rrequests -> uid r = uid j -> r = j) ->
      forall ev, In ev (snd (worker_pass w fuel l)) ->
                 written_uid ev <> Some (uid j)).
Proof.
  intros Hfetch.
  assert (Hfirst : forall ev u,
      In ev (snd (worker_pass w fuel l)) ->
      written_uid ev = Some u ->
      exists r, In r rrequests /\ uid r = u /\
                worker r = WORKER_NAME /\ status r = ready_to_start).
  { intros ev u Hin Hu.
    destruct (worker_pass_events w fuel l) as (us & Hall & Hus).
    rewrite (Hus _ Hfetch) in Hall. rewrite Forall_forall in Hall.
    destruct (Hall ev Hin) as [-> | [-> | (u0 & Hu0 & Hev)]]; try discriminate.
    apply (job_event_uid _ _ _ _ Hev) in Hu. subst u0.
    apply in_map_iff in Hu0. destruct Hu0 as (r & Hr & Hin').
    apply filter_In in Hin'. destruct Hin' as [Hin' Hel].
    apply eligible_iff in Hel. exists r. tauto. }
  split; [exact Hfirst|].
  intros j Hj Hnot Huniq ev Hin Hu.
  destruct (Hfirst ev (uid j) Hin Hu) as (r & Hr & Huid & Hw & Hs).
  apply Huniq in Huid; [|exact Hr]. subst r. tauto.
Qed.

Lemma worker_pass_writes_only_eligible_witness :
  get_all_requests_at calm_world (ncalls CGetAllRequests []) = Returns fetched /\
  In (job "b2" "RENDER_MACHINE_02" ready_to_start) fetched /\
  Forall (fun ev => written_uid ev <> Some "b2")
         (snd (worker_pass calm_world 5 [])).
Proof.
  split; [reflexivity|]. split; [right; left; reflexivity|].
  apply Forall_forall.
  apply (proj2 (worker_pass_writes_only_eligible calm_world 5 [] fetched eq_refl)
               (job "b2" "RENDER_MACHINE_02" ready_to_start)).
  - right; left; reflexivity.
  - left. discriminate.
  - intros r [<- | [<- | [<- | [<- | []]]]]; simpl; intros E;
      (reflexivity || discriminate).
Defined.

(** ** The writes of a pass addressed to one job *)

Lemma writes_to_app (u : string) (evs evs' : list Event) :
  writes_to u (evs ++ evs') = writes_to u evs ++ writes_to u evs'.
Proof. apply filter_app. Qed.

Lemma writes_to_other_job (w : World) (u u' : string) (evs : list Event) :
  u' <> u -> Forall (job_event w u') evs -> writes_to u evs = [].
Proof.
  intros Hne. induction 1 as [|ev evs Hev _ IH]; simpl; [reflexivity|].
  destruct (written_uid ev) as [u0|] eqn:E; [|exact IH].
  apply (job_event_uid _ _ _ _ Hev) in E. subst u0.
  destruct (String.eqb_spec u' u); [contradiction|exact IH].
Qed.

Lemma for_each_cons {A : Type} (x : A) (xs : list A) (body : A -> M unit)
      (l : list Event) :
  for_each (x :: xs) body l
  = match body x l with
    | (Ret _, evs) =>
        let (r, evs') := for_each xs body (l ++ evs) in (r, evs ++ evs')
    | (Exc e, evs) => (Exc e, evs)
    | (Blocked, evs) => (Blocked, evs)
    end.
Proof. reflexivity. Qed.

Lemma writes_to_other_jobs (w : World) (fuel : nat) (u : string)
      (us : list string) :
  ~ In u us ->
  forall l, writes_to u (snd (for_each us (process_job w fuel) l)) = [].
Proof.
  induction us as [|u' us IH]; intros Hnot l; [reflexivity|].
  rewrite for_each_cons.
  assert (Hstep : writes_to u (snd (process_job w fuel u' l)) = []).
  { apply (writes_to_other_job w u u'); [|apply process_job_events].
    intros ->. apply Hnot. now left. }
  destruct (process_job w fuel u' l) as [[[]|e|] evs]; simpl in *;
    try exact Hstep.
  specialize (IH (fun H => Hnot (or_intror H)) (l ++ evs)).
  destruct (for_each us (process_job w fuel) (l ++ evs)) as [r evs'].
  simpl in *. now rewrite writes_to_app, Hstep, IH.
Qed.

Lemma for_each_middle {A : Type} (body : A -> M unit) (x : A)
      (post : list A) :
  forall (pre : list A) (l evs : list Event),
    for_each pre body l = (Ret tt, evs) ->
    for_each (pre ++ x :: post) body l
    = let (r, evs') := for_each (x :: post) body (l ++ evs) in
      (r, evs ++ evs').
Proof.
  induction pre as [|y pre IH]; intros l evs Hpre.
  - injection Hpre as <-. rewrite app_nil_r. simpl app.
    now destruct (for_each (x :: post) body l).
  - simpl app. rewrite for_each_cons in *.
    destruct (body y l) as [[[]|e|] evs0]; try discriminate.
    destruct (for_each pre body (l ++ evs0)) as [r1 evs1] eqn:E1.
    injection Hpre as -> <-.
    rewrite (IH _ _ E1). rewrite <- !app_assoc.
    destruct (for_each (x :: post) body (l ++ evs0 ++ evs1)) as [r evs'].
    now rewrite <- app_assoc.
Qed.

(** The writes one pass addresses to a job are the writes of that job's own
    step: the steps of the other eligible jobs, before and after it, leave
    it alone. *)
Lemma pass_writes_to_job (w : World) (fuel : nat) (l : list Event)
      (rrequests : list RenderRequest) (pre post : list string) (u : string)
      (evs : list Event) :
  get_all_requests_at w (ncalls CGetAllRequests l) = Returns rrequests ->
  map uid (filter eligible rrequests) = pre ++ u :: post ->
  ~ In u pre -> ~ In u post ->
  for_each pre (process_job w fuel) (l ++ [EvGetAllRequests]) = (Ret tt, evs) ->
  writes_to u (snd (worker_pass w fuel l))
  = writes_to u (snd (process_job w fuel u (l ++ EvGetAllRequests :: evs))).
Proof.
  intros Hfetch Huids Hpre Hpost Hrun.
  unfold worker_pass, bind at 1, client_get_all_requests, call.
  rewrite Hfetch; simpl. rewrite Huids.
  unfold bind at 1. rewrite (for_each_middle _ _ _ _ _ _ Hrun).
  rewrite for_each_cons. rewrite <- app_assoc; simpl.
  pose proof (writes_to_other_jobs w fuel u pre Hpre (l ++ [EvGetAllRequests]))
    as Hbefore.
  rewrite Hrun in Hbefore; simpl in Hbefore.
  destruct (process_job w fuel u (l ++ EvGetAllRequests :: evs))
    as [[[]|e|] evs1]; simpl;
    try (now rewrite writes_to_app, Hbefore).
  pose proof (writes_to_other_jobs w fuel u post Hpost
                ((l ++ EvGetAllRequests :: evs) ++ evs1)) as Hafter.
  destruct (for_each post (process_job w fuel) _) as [[[]|e|] evs2];
    simpl in *;
    rewrite ?writes_to_app, ?Hbefore, ?Hafter; simpl;
    rewrite ?writes_to_app, ?Hafter, ?app_nil_r; reflexivity.
Qed.

(** ** Which statuses the worker writes *)

Lemma pass_event_status (w : World) (us : list string) (ev : Event) :
  pass_event w us ev -> writes_no_ready_to_start ev.
Proof.
  intros [-> | [-> | (u & _ & Hev)]]; try discriminate.
  destruct ev; try discriminate; simpl in Hev.
  - destruct Hev as [E | [E | E]]; injection E as -> -> -> ->;
      intros s [= <-]; split; try discriminate; tauto.
  - destruct Hev as (i & j & _ & E). injection E as -> -> -> ->.
    intros s [= <-]; split; try discriminate; tauto.
Qed.

(** C10: over any number of passes, every status write the worker issues
    (the claim write, a heartbeat, a terminal write) carries [in_progress],
    [finished] or [errored], never [ready_to_start]. *)
Theorem worker_never_writes_ready_to_start
        (w : World) (passes fuel : nat) (l : list Event) :
  Forall writes_no_ready_to_start (snd (worker_loop w passes fuel l)).
Proof.
  revert l. induction passes as [|passes IH]; intros l; simpl; [constructor|].
  unfold bind.
  destruct (worker_pass_events w fuel l) as (us & Hall & _).
  destruct (worker_pass w fuel l) as [[[]|e|] evs]; simpl in *;
    try (eapply Forall_impl; [apply pass_event_status|exact Hall]).
  specialize (IH (l ++ evs)).
  destruct (worker_loop w passes fuel (l ++ evs)) as [r evs']; simpl in *.
  apply Forall_app. split; [|exact IH].
  eapply Forall_impl; [apply pass_event_status|exact Hall].
Qed.

(** ** The per-job step *)

(** The step of a job whose load and claim write went through and whose
    driver returned an exit code: its log ends with the terminal write the
    exit code calls for. *)
Lemma process_job_final_write
      (w : World) (fuel : nat) (u : string) (l : list Event)
      (r : RenderRequest) (returncode : Z) (stdout stderr : bytes)
      (evs : list Event) :
  from_db_at w (ncalls CFromDb l) = Returns r ->
  update_at w (ncalls CUpdate l) = Returns tt ->
  render w fuel u (umap_path r) (useq_path r) (uconfig_path r)
         (l ++ [EvFromDb u; EvUpdate u 0 in_progress "Calculando..."])
  = (Ret (returncode, stdout, stderr), evs) ->
  (returncode = 0 ->
   update_at w (S (ncalls CUpdate l)) = Returns tt ->
   process_job w fuel u l
   = (Ret tt,
      EvFromDb u :: EvUpdate u 0 in_progress "Calculando..."
        :: evs ++ [EvUpdate u 100 finished "N/A"]))
  /\
  (returncode <> 0 ->
   snd (process_job w fuel u l)
   = EvFromDb u :: EvUpdate u 0 in_progress "Calculando..."
       :: evs ++ [EvUpdate u 0 errored "0"]).
Proof.
  intros Hload Hclaim Hrender.
  rewrite process_job_unfold. unfold process_job_cases.
  rewrite Hload, Hclaim. unfold claim_write. rewrite Hrender.
  split.
  - intros -> Hfinal. simpl. now rewrite Hfinal.
  - intros Hcode. apply Z.eqb_neq in Hcode. now rewrite Hcode.
Qed.

Lemma last_write_snoc (u : string) (evs : list Event) (p : Z)
      (s : RenderStatus) (t : string) :
  last_write u (evs ++ [EvUpdate u p s t]) = Some (EvUpdate u p s t).
Proof.
  unfold last_write. rewrite writes_to_app. simpl.
  rewrite String.eqb_refl, map_app. simpl. apply last_last.
Qed.

(** C3: take a pass that fetched the jobs, an eligible job [u] (listed once
    among the eligible identifiers) whose predecessors in the pass were
    processed, whose load and claim write went through and whose driver
    returned the exit code of the process.  With exit code 0 and a terminal
    write that returns, the last status write the pass addresses to [u] is
    status [finished] with progress 100; with any other exit code it is
    status [errored] with progress 0. *)
Theorem exit_code_decides_final_write
        (w : World) (fuel : nat) (l : list Event)
        (rrequests : list RenderRequest) (pre post : list string) (u : string)
        (before : list Event) (r : RenderRequest) (returncode : Z)
        (stdout stderr : bytes) (evs : list Event) :
  get_all_requests_at w (ncalls CGetAllRequests l) = Returns rrequests ->
  map uid (filter eligible rrequests) = pre ++ u :: post ->
  ~ In u pre -> ~ In u post ->
  for_each pre (process_job w fuel) (l ++ [EvGetAllRequests])
  = (Ret tt, before) ->
  from_db_at w (ncalls CFromDb (l ++ EvGetAllRequests :: before)) = Returns r ->
  update_at w (ncalls CUpdate (l ++ EvGetAllRequests :: before)) = Returns tt ->
  render w fuel u (umap_path r) (useq_path r) (uconfig_path r)
         ((l ++ EvGetAllRequests :: before)
            ++ [EvFromDb u; EvUpdate u 0 in_progress "Calculando..."])
  = (Ret (returncode, stdout, stderr), evs) ->
  (returncode = 0 ->
   update_at w (S (ncalls CUpdate (l ++ EvGetAllRequests :: before)))
   = Returns tt ->
   last_write u (snd (worker_pass w fuel l))
   = Some (EvUpdate u 100 finished "N/A"))
  /\
  (returncode <> 0 ->
   last_write u (snd (worker_pass w fuel l))
   = Some (EvUpdate u 0 errored "0")).
Proof.
  intros Hfetch Huids Hpre Hpost Hbefore Hload Hclaim Hrender.
  unfold last_write.
  rewrite (pass_writes_to_job w fuel l rrequests pre post u before
             Hfetch Huids Hpre Hpost Hbefore).
  destruct (process_job_final_write w fuel u _ r returncode stdout stderr evs
              Hload Hclaim Hrender) as [Hzero Hnonzero].
  split.
  - intros Hcode Hfinal. rewrite (Hzero Hcode Hfinal). simpl snd.
    apply (last_write_snoc u (EvFromDb u :: _ :: evs)).
  - intros Hcode. rewrite (Hnonzero Hcode).
    apply (last_write_snoc u (EvFromDb u :: _ :: evs)).
Qed.

Lemma exit_code_decides_final_write_witness :
  last_write "a1" (snd (worker_pass calm_world 5 []))
  = Some (EvUpdate "a1" 100 finished "N/A")
  /\
  last_write "d4" (snd (worker_pass calm_world 5 []))
  = Some (EvUpdate "d4" 0 errored "0").
Proof.
  split.
  - apply (proj1 (exit_code_decides_final_write calm_world 5 [] fetched
                    [] ["d4"] "a1" []
                    (job "" WORKER_NAME ready_to_start)
                    0 [x4c; x6f; x67] [xff; x21]
                    (snd (render calm_world 5 "a1" "/Game/Maps/Main"
                            "/Game/Sequences/Shot010" "/Game/Presets/Final"
                            [EvGetAllRequests; EvFromDb "a1";
                             EvUpdate "a1" 0 in_progress "Calculando..."]))
                    eq_refl eq_refl (fun H => H)
                    ltac:(intros [H | []]; discriminate)
                    eq_refl eq_refl eq_refl eq_refl));
      reflexivity.
  - apply (proj2 (exit_code_decides_final_write calm_world 5 [] fetched
                    ["a1"] [] "d4"
                    (snd (process_job calm_world 5 "a1" [EvGetAllRequests]))
                    (job "" WORKER_NAME ready_to_start)
                    1 [x4c; x6f; x67] [xff; x21]
                    (snd (render calm_world 5 "d4" "/Game/Maps/Main"
                            "/Game/Sequences/Shot010" "/Game/Presets/Final"
                            ((EvGetAllRequests
                                :: snd (process_job calm_world 5 "a1"
                                                    [EvGetAllRequests]))
                               ++ [EvFromDb "d4";
                                   EvUpdate "d4" 0 in_progress "Calculando..."])))
                    eq_refl eq_refl
                    ltac:(intros [H | []]; discriminate)
                    (fun H => H)
                    eq_refl eq_refl eq_refl eq_refl)).
    discriminate.
Defined.

Lemma render_spawn_first (w : World) (fuel : nat) (u umap useq uconfig : string)
      (l : list Event) :
  exists rest,
    snd (render w fuel u umap useq uconfig l)
    = EvPopen (command u umap useq uconfig) (MODULE_PATH w) :: rest /\
    Forall (fun ev => kind ev <> CPopen) rest.
Proof.
  rewrite render_unfold. unfold render_cases.
  destruct (Popen_at w (ncalls CPopen l)) as [[]|e];
    [|exists []; split; [reflexivity|constructor]].
  match goal with
  | |- context [heartbeat_loop w fuel u ?s ?l'] =>
      assert (H : Forall (fun ev => kind ev <> CPopen)
                         (snd (heartbeat_loop w fuel u s l')))
  end.
  { eapply Forall_impl; [|apply heartbeat_loop_calls].
    intros ev Hev E. unfold loop_call in Hev. now rewrite E in Hev. }
  destruct (heartbeat_loop w fuel u _ _) as [[c|e|] evs]; simpl in *.
  - destruct (communicate_at w (ncalls CCommunicate l)); simpl;
      eexists; (split; [reflexivity|]);
      (constructor; [discriminate|]);
      (apply Forall_app; split; [exact H|]);
      repeat constructor; discriminate.
  - eexists; split; [reflexivity|]. constructor; [discriminate|exact H].
  - eexists; split; [reflexivity|]. constructor; [discriminate|exact H].
Qed.

(** C4: in the log of the step for one job, the process is spawned at most
    once, and whenever it is, the two calls made before the spawn are the
    load of the job and the write of status [in_progress], progress 0 and the
    placeholder estimate, and that write has returned. *)
Theorem claim_write_precedes_spawn
        (w : World) (fuel : nat) (u : string) (l : list Event)
        (cmd : list string) (path : string) :
  In (EvPopen cmd path) (snd (process_job w fuel u l)) ->
  update_at w (ncalls CUpdate l) = Returns tt /\
  exists rest,
    snd (process_job w fuel u l)
    = EvFromDb u :: EvUpdate u 0 in_progress "Calculando..."
        :: EvPopen cmd path :: rest /\
    Forall (fun ev => kind ev <> CPopen) rest.
Proof.
  rewrite process_job_unfold. unfold process_job_cases.
  destruct (from_db_at w (ncalls CFromDb l)) as [r|e];
    [|intros [E|[]]; discriminate].
  destruct (update_at w (ncalls CUpdate l)) as [[]|e];
    [|intros [E|[E|[E|[]]]]; discriminate].
  destruct (render_spawn_first w fuel u (umap_path r) (useq_path r)
              (uconfig_path r) (l ++ [EvFromDb u; claim_write u]))
    as (rest & Hevs & Hrest).
  assert (Hsame : forall tl,
             Forall (fun ev => kind ev <> CPopen) tl ->
             In (EvPopen cmd path)
                (EvFromDb u :: claim_write u
                   :: (EvPopen (command u (umap_path r) (useq_path r)
                                        (uconfig_path r)) (MODULE_PATH w)
                         :: rest) ++ tl) ->
             EvPopen (command u (umap_path r) (useq_path r) (uconfig_path r))
                     (MODULE_PATH w) = EvPopen cmd path).
  { intros tl Htl [E|[E|[E|Hin]]]; try discriminate; [exact E|].
    exfalso. apply in_app_or in Hin.
    assert (Hno : Forall (fun ev => kind ev <> CPopen) (rest ++ tl))
      by (apply Forall_app; now split).
    rewrite Forall_forall in Hno.
    apply (Hno (EvPopen cmd path)); [apply in_or_app; exact Hin|reflexivity]. }
  destruct (render w fuel u _ _ _ _) as [[[[c out] err]|e|] evs];
    cbn [snd] in *; subst evs.
  - destruct (c =? 0)%Z; [destruct (update_at w (S (ncalls CUpdate l)))|];
      cbn [snd]; intros Hin; (split; [reflexivity|]);
      match goal with
      | Hin : In _ (_ :: _ :: (_ :: rest) ++ ?tl) |- _ =>
          assert (Htl : Forall (fun ev => kind ev <> CPopen) tl)
            by (repeat constructor; discriminate);
          rewrite <- (Hsame tl Htl Hin);
          exists (rest ++ tl); split; [reflexivity|];
          apply Forall_app; now split
      end.
  - intros Hin. split; [reflexivity|].
    assert (Htl : Forall (fun ev => kind ev <> CPopen) [errored_write u])
      by (repeat constructor; discriminate).
    rewrite <- (Hsame _ Htl Hin).
    exists (rest ++ [errored_write u]); split; [reflexivity|].
    apply Forall_app; now split.
  - intros Hin. split; [reflexivity|].
    rewrite <- (app_nil_r rest) in Hin.
    rewrite <- (Hsame [] (Forall_nil _) Hin).
    exists rest. now split.
Qed.

Lemma claim_write_precedes_spawn_witness :
  In (EvPopen (command "a1" "/Game/Maps/Main" "/Game/Sequences/Shot010"
                       "/Game/Presets/Final") "C:\farm\unrealRenderFarm")
     (snd (process_job calm_world 5 "a1" [EvGetAllRequests])) /\
  update_at calm_world (ncalls CUpdate [EvGetAllRequests]) = Returns tt /\
  exists rest,
    snd (process_job calm_world 5 "a1" [EvGetAllRequests])
    = EvFromDb "a1" :: EvUpdate "a1" 0 in_progress "Calculando..."
        :: EvPopen (command "a1" "/Game/Maps/Main" "/Game/Sequences/Shot010"
                            "/Game/Presets/Final") "C:\farm\unrealRenderFarm"
        :: rest /\
    Forall (fun ev => kind ev <> CPopen) rest.
Proof.
  assert (Hin : In (EvPopen (command "a1" "/Game/Maps/Main"
                               "/Game/Sequences/Shot010" "/Game/Presets/Final")
                            "C:\farm\unrealRenderFarm")
                   (snd (process_job calm_world 5 "a1" [EvGetAllRequests]))).
  { vm_compute. do 2 right. left. reflexivity. }
  split; [exact Hin|].
  exact (claim_write_precedes_spawn calm_world 5 "a1" [EvGetAllRequests] _ _ Hin).
Defined.

(** C5: for a job whose load and claim write went through, when the driver
    raises (at the spawn, a poll, a heartbeat or [communicate]) the handler
    issues the write of status [errored] with progress 0 and time estimate
    "0" as the next and last call of the step, and the step ends the way that
    write ends: the driver's exception itself goes no further, and the step
    returns normally when the write returns. *)
Theorem render_exception_becomes_errored
        (w : World) (fuel : nat) (u : string) (l : list Event)
        (r : RenderRequest) (e : PyExc) (evs : list Event) :
  from_db_at w (ncalls CFromDb l) = Returns r ->
  update_at w (ncalls CUpdate l) = Returns tt ->
  render w fuel u (umap_path r) (useq_path r) (uconfig_path r)
         (l ++ [EvFromDb u; EvUpdate u 0 in_progress "Calculando..."])
  = (Exc e, evs) ->
  process_job w fuel u l
  = (res_of (update_at w (S (ncalls CUpdate l))),
     EvFromDb u :: EvUpdate u 0 in_progress "Calculando..."
       :: evs ++ [EvUpdate u 0 errored "0"])
  /\
  (update_at w (S (ncalls CUpdate l)) = Returns tt ->
   fst (process_job w fuel u l) = Ret tt).
Proof.
  intros Hload Hclaim Hrender.
  rewrite process_job_unfold. unfold process_job_cases.
  rewrite Hload, Hclaim. unfold claim_write. rewrite Hrender.
  split; [reflexivity|]. simpl. now intros ->.
Qed.

Lemma render_exception_becomes_errored_witness :
  process_job no_executable_world 5 "a1" [EvGetAllRequests]
  = (Ret tt,
     [ EvFromDb "a1"; EvUpdate "a1" 0 in_progress "Calculando...";
       EvPopen (command "a1" "/Game/Maps/Main" "/Game/Sequences/Shot010"
                        "/Game/Presets/Final") "C:\farm\unrealRenderFarm";
       EvUpdate "a1" 0 errored "0" ])
  /\
  fst (process_job no_executable_world 5 "a1" [EvGetAllRequests]) = Ret tt.
Proof.
  split.
  - apply (proj1 (render_exception_becomes_errored no_executable_world 5 "a1"
                    [EvGetAllRequests] (job "" WORKER_NAME ready_to_start)
                    (OSError "[WinError 2] file not found") _
                    eq_refl eq_refl eq_refl)).
  - apply (proj2 (render_exception_becomes_errored no_executable_world 5 "a1"
                    [EvGetAllRequests] (job "" WORKER_NAME ready_to_start)
                    (OSError "[WinError 2] file not found") _
                    eq_refl eq_refl eq_refl)).
    reflexivity.
Defined.

(** ** Where an exception leaves the per-job step *)

(** The step for one job raises only when the load of the job raises, which
    happens before the [try], or when the write of status [errored] issued by
    an [except] clause raises. *)
Lemma process_job_raises (w : World) (fuel : nat) (u : string)
      (l : list Event) (e : PyExc) :
  fst (process_job w fuel u l) = Exc e ->
  from_db_at w (ncalls CFromDb l) = Raises e \/
  exists k rest,
    (ncalls CUpdate l < k)%nat /\ update_at w k = Raises e /\
    snd (process_job w fuel u l) = rest ++ [errored_write u].
Proof.
  rewrite process_job_unfold. unfold process_job_cases.
  destruct (from_db_at w (ncalls CFromDb l)) as [r|e0]; simpl;
    [|intros [= ->]; now left].
  assert (Hres : forall k, res_of (update_at w k) = Exc e ->
                           update_at w k = Raises e).
  { intros k. destruct (update_at w k); simpl; congruence. }
  destruct (update_at w (ncalls CUpdate l)) as [[]|e0]; simpl.
  - destruct (render w fuel u _ _ _ _) as [[[[c out] err]|e0|] evs]; simpl.
    + destruct (c =? 0)%Z; simpl.
      * destruct (update_at w (S (ncalls CUpdate l))) as [[]|e1] eqn:E; simpl;
          [discriminate|].
        intros H. right. exists (S (S (ncalls CUpdate l))).
        exists (EvFromDb u :: claim_write u :: evs ++ [finished_write u]).
        split; [lia|]. split; [now apply Hres|].
        simpl. now rewrite <- app_assoc.
      * intros H. right. exists (S (ncalls CUpdate l)).
        exists (EvFromDb u :: claim_write u :: evs).
        split; [lia|]. split; [now apply Hres|reflexivity].
    + intros H. right. exists (S (ncalls CUpdate l)).
      exists (EvFromDb u :: claim_write u :: evs).
      split; [lia|]. split; [now apply Hres|reflexivity].
    + discriminate.
  - intros H. right. exists (S (ncalls CUpdate l)).
    exists [EvFromDb u; claim_write u].
    split; [lia|]. split; [now apply Hres|reflexivity].
Qed.

Lemma for_each_raises (w : World) (fuel : nat) (e : PyExc) (us : list string) :
  forall l,
    fst (for_each us (process_job w fuel) l) = Exc e ->
    exists u l', In u us /\ fst (process_job w fuel u l') = Exc e.
Proof.
  induction us as [|u us IH]; intros l; [discriminate|].
  rewrite for_each_cons.
  destruct (process_job w fuel u l) as [[[]|e'|] evs] eqn:E; simpl.
  - specialize (IH (l ++ evs)).
    destruct (for_each us (process_job w fuel) (l ++ evs)) as [r evs'].
    simpl in *. intros H. destruct (IH H) as (u' & l' & Hin & Hu').
    exists u', l'. split; [now right|exact Hu'].
  - intros [= ->]. exists u, l. split; [now left|now rewrite E].
  - discriminate.
Qed.

(** A pass raises only when the fetch raises or the step of an eligible job
    does; with a job source whose loads and writes go through, no failure of
    the spawn, the polls, the heartbeats or [communicate] ends the pass. *)
Lemma worker_pass_raises (w : World) (fuel : nat) (l : list Event) (e : PyExc) :
  fst (worker_pass w fuel l) = Exc e ->
  get_all_requests_at w (ncalls CGetAllRequests l) = Raises e \/
  exists u l', fst (process_job w fuel u l') = Exc e.
Proof.
  unfold worker_pass, bind at 1, client_get_all_requests, call.
  destruct (get_all_requests_at w (ncalls CGetAllRequests l)) as [rs|e0];
    simpl; [|intros [= ->]; now left].
  unfold bind at 1.
  destruct (for_each _ _ _) as [[[]|e0|] evs] eqn:E; simpl; try discriminate.
  intros [= ->]. right.
  destruct (for_each_raises w fuel e (map uid (filter eligible rs))
                            (l ++ [EvGetAllRequests]))
    as (u & l' & _ & H); [now rewrite E|].
  now exists u, l'.
Qed.

Lemma worker_pass_survives_driver_failures
      (w : World) (fuel : nat) (l : list Event) (e : PyExc) :
  (forall n, exists rrequests, get_all_requests_at w n = Returns rrequests) ->
  (forall n, exists r, from_db_at w n = Returns r) ->
  (forall n, update_at w n = Returns tt) ->
  fst (worker_pass w fuel l) <> Exc e.
Proof.
  intros Hfetch Hload Hupdate H.
  apply worker_pass_raises in H. destruct H as [H | (u & l' & H)].
  - destruct (Hfetch (ncalls CGetAllRequests l)) as [rs Hrs]. congruence.
  - apply process_job_raises in H. destruct H as [H | (k & rest & _ & H & _)].
    + destruct (Hload (ncalls CFromDb l')) as [r Hr]. congruence.
    + rewrite Hupdate in H. discriminate.
Qed.

(** C2 (the code departs from it): with a job source that refuses every
    [update], the claim write of the first eligible job raises inside the
    [try], the [except] clause's own write of [errored] raises in turn, and
    that exception leaves the per-job step, the [for] loop and the [while]
    loop: the second eligible job d4 is never touched, the pass does not
    reach its sleep, and the worker is ended after the first pass. *)
Theorem job_source_down_ends_worker :
  worker_pass source_down_world 5 []
  = (Exc (ConnectionError "connection refused"),
     [ EvGetAllRequests; EvFromDb "a1";
       EvUpdate "a1" 0 in_progress "Calculando...";
       EvUpdate "a1" 0 errored "0" ])
  /\
  In "d4" (map uid (filter eligible fetched))
  /\
  worker_loop source_down_world 3 5 []
  = (Exc (ConnectionError "connection refused"),
     [ EvGetAllRequests; EvFromDb "a1";
       EvUpdate "a1" 0 in_progress "Calculando...";
       EvUpdate "a1" 0 errored "0" ]).
Proof.
  split; [vm_compute; reflexivity|].
  split; [vm_compute; tauto|].
  vm_compute; reflexivity.
Qed.

(** * Further properties of the loop and the driver *)

(** ** Passes with nothing to do, and passes that cannot start *)

Lemma filter_none_eligible (rrequests : list RenderRequest) :
  (forall r, In r rrequests ->
             worker r <> WORKER_NAME \/ status r <> ready_to_start) ->
  filter eligible rrequests = [].
Proof.
  induction rrequests as [|r rs IH]; intros H; simpl; [reflexivity|].
  destruct (eligible r) eqn:E.
  - apply eligible_iff in E. destruct (H r (or_introl eq_refl)); tauto.
  - apply IH. intros r' Hr'. apply H. now right.
Qed.

(** X1: when the fetch returns no job that is both assigned to
    [WORKER_NAME] and [ready_to_start] (an empty list included), the pass
    consists of the fetch and the ten-second sleep and returns: no load, no
    write, no spawn. *)
Theorem idle_pass_fetches_and_sleeps
        (w : World) (fuel : nat) (l : list Event)
        (rrequests : list RenderRequest) :
  get_all_requests_at w (ncalls CGetAllRequests l) = Returns rrequests ->
  (forall r, In r rrequests ->
             worker r <> WORKER_NAME \/ status r <> ready_to_start) ->
  worker_pass w fuel l = (Ret tt, [EvGetAllRequests; EvSleep 10]).
Proof.
  intros Hfetch Hnone.
  unfold worker_pass, bind at 1, client_get_all_requests, call.
  rewrite Hfetch; simpl. now rewrite (filter_none_eligible _ Hnone).
Qed.

Lemma idle_pass_fetches_and_sleeps_witness :
  worker_pass idle_world 5 [] = (Ret tt, [EvGetAllRequests; EvSleep 10]).
Proof.
  apply (idle_pass_fetches_and_sleeps idle_world 5 []
           [ job "b2" "RENDER_MACHINE_02" ready_to_start;
             job "c3" WORKER_NAME finished ] eq_refl).
  intros r [<- | [<- | []]]; [left|right]; discriminate.
Defined.

Lemma worker_pass_fetch_raises (w : World) (fuel : nat) (l : list Event)
      (e : PyExc) :
  get_all_requests_at w (ncalls CGetAllRequests l) = Raises e ->
  worker_pass w fuel l = (Exc e, [EvGetAllRequests]).
Proof.
  intros Hfetch.
  unfold worker_pass, bind at 1, client_get_all_requests, call.
  now rewrite Hfetch.
Qed.

(** X2: an exception raised by [client.get_all_requests] is caught nowhere:
    the pass ends with it right after the fetch, without the ten-second
    sleep, and so does the polling loop, however many passes were to
    follow. *)
Theorem fetch_failure_ends_worker
        (w : World) (passes fuel : nat) (l : list Event) (e : PyExc) :
  get_all_requests_at w (ncalls CGetAllRequests l) = Raises e ->
  worker_pass w fuel l = (Exc e, [EvGetAllRequests]) /\
  worker_loop w (S passes) fuel l = (Exc e, [EvGetAllRequests]).
Proof.
  intros Hfetch.
  pose proof (worker_pass_fetch_raises w fuel l e Hfetch) as H.
  split; [exact H|]. simpl. unfold bind. now rewrite H.
Qed.

Lemma fetch_failure_ends_worker_witness :
  worker_pass fetch_down_world 5 []
  = (Exc (ConnectionError "connection refused"), [EvGetAllRequests]) /\
  worker_loop fetch_down_world 3 5 []
  = (Exc (ConnectionError "connection refused"), [EvGetAllRequests]).
Proof.
  exact (fetch_failure_ends_worker fetch_down_world 2 5 []
           (ConnectionError "connection refused") eq_refl).
Defined.

(** X3: when [RenderRequest.from_db] raises for an eligible job, the jobs
    before it having been processed, the exception ends the pass on the
    spot: nothing is written for that job, the eligible jobs after it are
    not loaded, and the pass does not sleep. *)
Theorem load_failure_ends_pass
        (w : World) (fuel : nat) (l : list Event)
        (rrequests : list RenderRequest) (pre post : list string) (u : string)
        (before : list Event) (e : PyExc) :
  get_all_requests_at w (ncalls CGetAllRequests l) = Returns rrequests ->
  map uid (filter eligible rrequests) = pre ++ u :: post ->
  for_each pre (process_job w fuel) (l ++ [EvGetAllRequests])
  = (Ret tt, before) ->
  from_db_at w (ncalls CFromDb (l ++ EvGetAllRequests :: before)) = Raises e ->
  worker_pass w fuel l
  = (Exc e, EvGetAllRequests :: before ++ [EvFromDb u]).
Proof.
  intros Hfetch Huids Hbefore Hload.
  unfold worker_pass, bind at 1, client_get_all_requests, call.
  rewrite Hfetch; simpl. rewrite Huids.
  unfold bind at 1. rewrite (for_each_middle _ _ _ _ _ _ Hbefore).
  rewrite for_each_cons, process_job_unfold. unfold process_job_cases.
  rewrite <- app_assoc; simpl. now rewrite Hload.
Qed.

Lemma load_failure_ends_pass_witness :
  worker_pass load_fails_world 5 []
  = (Exc (ValueError "Expecting value: line 1 column 1"),
     EvGetAllRequests
       :: snd (process_job load_fails_world 5 "a1" [EvGetAllRequests])
       ++ [EvFromDb "d4"]).
Proof.
  apply (load_failure_ends_pass load_fails_world 5 [] fetched ["a1"] [] "d4"
           (snd (process_job load_fails_world 5 "a1" [EvGetAllRequests]))
           (ValueError "Expecting value: line 1 column 1")
           eq_refl eq_refl eq_refl eq_refl).
Defined.

(** ** The writes around the driver *)

(** X4: when the claim write raises, the driver is not invoked: the step
    loads the job, attempts the claim write, issues the write of status
    [errored], and ends as that write ends; no process is spawned. *)
Theorem claim_failure_skips_render
        (w : World) (fuel : nat) (u : string) (l : list Event)
        (r : RenderRequest) (e : PyExc) :
  from_db_at w (ncalls CFromDb l) = Returns r ->
  update_at w (ncalls CUpdate l) = Raises e ->
  process_job w fuel u l
  = (res_of (update_at w (S (ncalls CUpdate l))),
     [ EvFromDb u; EvUpdate u 0 in_progress "Calculando...";
       EvUpdate u 0 errored "0" ])
  /\
  ncalls CPopen (snd (process_job w fuel u l)) = O.
Proof.
  intros Hload Hclaim.
  rewrite process_job_unfold. unfold process_job_cases.
  rewrite Hload, Hclaim. split; reflexivity.
Qed.

Lemma claim_failure_skips_render_witness :
  process_job claim_refused_world 5 "a1" [EvGetAllRequests]
  = (Ret tt,
     [ EvFromDb "a1"; EvUpdate "a1" 0 in_progress "Calculando...";
       EvUpdate "a1" 0 errored "0" ])
  /\
  ncalls CPopen (snd (process_job claim_refused_world 5 "a1"
                                  [EvGetAllRequests])) = O.
Proof.
  exact (claim_failure_skips_render claim_refused_world 5 "a1"
           [EvGetAllRequests] (job "" WORKER_NAME ready_to_start)
           (ConnectionError "connection reset") eq_refl eq_refl).
Defined.

(** X5: when the process exits with code 0 but the write of status
    [finished] raises, the [except] clause runs as for a failed render: the
    step's last two calls are the write of [finished] and then the write of
    [errored] with progress 0, and the step ends as the latter ends.  A
    render that succeeded is reported as errored. *)
Theorem finish_failure_marks_errored
        (w : World) (fuel : nat) (u : string) (l : list Event)
        (r : RenderRequest) (stdout stderr : bytes) (evs : list Event)
        (e : PyExc) :
  from_db_at w (ncalls CFromDb l) = Returns r ->
  update_at w (ncalls CUpdate l) = Returns tt ->
  render w fuel u (umap_path r) (useq_path r) (uconfig_path r)
         (l ++ [EvFromDb u; EvUpdate u 0 in_progress "Calculando..."])
  = (Ret (0, stdout, stderr), evs) ->
  update_at w (S (ncalls CUpdate l)) = Raises e ->
  process_job w fuel u l
  = (res_of (update_at w (S (S (ncalls CUpdate l)))),
     EvFromDb u :: EvUpdate u 0 in_progress "Calculando..."
       :: evs ++ [EvUpdate u 100 finished "N/A"; EvUpdate u 0 errored "0"])
  /\
  last_write u (snd (process_job w fuel u l))
  = Some (EvUpdate u 0 errored "0").
Proof.
  intros Hload Hclaim Hrender Hfinish.
  rewrite process_job_unfold. unfold process_job_cases.
  rewrite Hload, Hclaim. unfold claim_write. rewrite Hrender. simpl.
  rewrite Hfinish. split; [reflexivity|]. simpl snd.
  change [finished_write u; errored_write u]
    with ([finished_write u] ++ [errored_write u]).
  rewrite app_assoc.
  apply (last_write_snoc u
           (EvFromDb u :: EvUpdate u 0 in_progress "Calculando..."
              :: evs ++ [finished_write u])).
Qed.

Lemma finish_failure_marks_errored_witness :
  fst (process_job finish_refused_world 5 "a1" [EvGetAllRequests]) = Ret tt
  /\
  last_write "a1" (snd (process_job finish_refused_world 5 "a1"
                                    [EvGetAllRequests]))
  = Some (EvUpdate "a1" 0 errored "0").
Proof.
  pose proof (finish_failure_marks_errored finish_refused_world 5 "a1"
                [EvGetAllRequests] (job "" WORKER_NAME ready_to_start)
                [x4c; x6f; x67] [xff; x21]
                (snd (render finish_refused_world 5 "a1" "/Game/Maps/Main"
                        "/Game/Sequences/Shot010" "/Game/Presets/Final"
                        [EvGetAllRequests; EvFromDb "a1";
                         EvUpdate "a1" 0 in_progress "Calculando..."]))
                (ConnectionError "connection reset")
                eq_refl eq_refl eq_refl eq_refl) as [H1 H2].
  split; [now rewrite H1|exact H2].
Defined.

(** ** The driver: no time-out, no clean-up *)

Lemma heartbeat_loop_blocked (w : World) (u : string) (start_time : Q)
      (fuel : nat) (l : list Event) :
  alive_for w l fuel ->
  heartbeat_loop w fuel u start_time l
  = (Blocked, ticks w u start_time (ncalls CTime l) fuel).
Proof.
  intros Halive.
  destruct (heartbeat_loop_shape w u start_time fuel l)
    as (n & r & ending & Heq & _ & Hend).
  inversion Hend; subst;
    try (destruct (Halive n ltac:(assumption)) as [Hp Hu]; congruence).
  now rewrite Heq, app_nil_r.
Qed.

Lemma heartbeat_loop_heartbeat_raises (w : World) (u : string)
      (start_time : Q) (fuel : nat) (l : list Event) (n : nat) (e : PyExc) :
  (n < fuel)%nat ->
  alive_for w l n ->
  poll_at w (ncalls CPoll l + n) = Returns None ->
  update_request_at w (ncalls CUpdateRequest l + n) = Raises e ->
  heartbeat_loop w fuel u start_time l
  = (Exc e,
     ticks w u start_time (ncalls CTime l) n
       ++ [EvPoll; EvTime;
           heartbeat u (time_at w (ncalls CTime l + n) - start_time)]).
Proof.
  intros Hfuel Halive Hpoll Hsend.
  destruct (heartbeat_loop_shape w u start_time fuel l)
    as (n' & r & ending & Heq & Halive' & Hend).
  destruct (Nat.lt_trichotomy n' n) as [Hlt | [-> | Hgt]].
  - destruct (Halive n' Hlt) as [Hp Hu].
    inversion Hend; subst; try congruence; lia.
  - inversion Hend; subst; try congruence; lia.
  - destruct (Halive' n Hgt) as [_ Hu]. congruence.
Qed.

(** X6: the driver has no time-out.  As long as the spawned process is
    found alive and the heartbeats get through, [render] has not returned,
    however many turns of the loop it is given: its log is the spawn, the
    start-time reading and that many turns, with no [communicate], and the
    step of the job is blocked with it, no terminal status written. *)
Theorem render_blocks_while_process_alive
        (w : World) (fuel : nat) (u : string) (l : list Event)
        (r : RenderRequest) :
  from_db_at w (ncalls CFromDb l) = Returns r ->
  update_at w (ncalls CUpdate l) = Returns tt ->
  Popen_at w (ncalls CPopen l) = Returns tt ->
  alive_for w l fuel ->
  process_job w fuel u l
  = (Blocked,
     EvFromDb u :: EvUpdate u 0 in_progress "Calculando..."
       :: EvPopen (command u (umap_path r) (useq_path r) (uconfig_path r))
                  (MODULE_PATH w)
       :: EvTime
       :: ticks w u (time_at w (ncalls CTime l)) (S (ncalls CTime l)) fuel).
Proof.
  intros Hload Hclaim Hspawn Halive.
  rewrite process_job_unfold. unfold process_job_cases.
  rewrite Hload, Hclaim, render_unfold. unfold render_cases.
  count_calls Hspawn.
  match goal with
  | |- context [heartbeat_loop w fuel u ?s ?l'] =>
      rewrite (heartbeat_loop_blocked w u s fuel l')
  end.
  - count_calls Hspawn.
    now replace (ncalls CTime l + 1)%nat with (S (ncalls CTime l)) by lia.
  - intros i Hi. count_calls Hspawn. now apply Halive.
Qed.

Lemma hung_world_alive (n : nat) : alive_for hung_world [EvGetAllRequests] n.
Proof. intros i Hi. split; reflexivity. Qed.

Lemma render_blocks_while_process_alive_witness :
  process_job hung_world 40 "a1" [EvGetAllRequests]
  = (Blocked,
     EvFromDb "a1" :: EvUpdate "a1" 0 in_progress "Calculando..."
       :: EvPopen (command "a1" "/Game/Maps/Main" "/Game/Sequences/Shot010"
                           "/Game/Presets/Final") "C:\farm\unrealRenderFarm"
       :: EvTime
       :: ticks hung_world "a1" (time_at hung_world 0) 1 40).
Proof.
  exact (render_blocks_while_process_alive hung_world 40 "a1"
           [EvGetAllRequests] (job "" WORKER_NAME ready_to_start)
           eq_refl eq_refl eq_refl (hung_world_alive 40)).
Defined.

(** X7: a heartbeat that raises ends the driver while the process is still
    alive.  After [n] good turns, with the process found alive at the next
    poll and [update_request] raising, [render] raises that exception right
    after the failed heartbeat: it polls no more and does not call
    [communicate], so the process, alive at the last poll, is not waited
    for. *)
Theorem heartbeat_failure_abandons_process
        (w : World) (fuel : nat) (u umap useq uconfig : string)
        (l : list Event) (n : nat) (e : PyExc) :
  Popen_at w (ncalls CPopen l) = Returns tt ->
  (n < fuel)%nat ->
  alive_for w l n ->
  poll_at w (ncalls CPoll l + n) = Returns None ->
  update_request_at w (ncalls CUpdateRequest l + n) = Raises e ->
  render w fuel u umap useq uconfig l
  = (Exc e,
     EvPopen (command u umap useq uconfig) (MODULE_PATH w) :: EvTime
       :: ticks w u (time_at w (ncalls CTime l)) (S (ncalls CTime l)) n
       ++ [EvPoll; EvTime;
           heartbeat u (time_at w (S (ncalls CTime l) + n)
                        - time_at w (ncalls CTime l))])
  /\
  ncalls CCommunicate (snd (render w fuel u umap useq uconfig l)) = O.
Proof.
  intros Hspawn Hfuel Halive Hpoll Hsend.
  assert (Hrun : render w fuel u umap useq uconfig l
  = (Exc e,
     EvPopen (command u umap useq uconfig) (MODULE_PATH w) :: EvTime
       :: ticks w u (time_at w (ncalls CTime l)) (S (ncalls CTime l)) n
       ++ [EvPoll; EvTime;
           heartbeat u (time_at w (S (ncalls CTime l) + n)
                        - time_at w (ncalls CTime l))])).
  { rewrite render_unfold. unfold render_cases. rewrite Hspawn.
    fold (spawned w u umap useq uconfig l).
    assert (HT : ncalls CTime (spawned w u umap useq uconfig l)
                 = S (ncalls CTime l))
      by (unfold spawned; rewrite ncalls_app; simpl; lia).
    rewrite (heartbeat_loop_heartbeat_raises w u _ fuel _ n e Hfuel).
    - now rewrite HT.
    - now apply alive_for_spawned.
    - unfold spawned. count_calls Hspawn. exact Hpoll.
    - unfold spawned. count_calls Hspawn. exact Hsend. }
  split; [exact Hrun|].
  rewrite Hrun. simpl snd.
  apply ncalls_none. repeat constructor; try discriminate.
  apply Forall_app. split; [|repeat constructor; discriminate].
  clear. generalize (S (ncalls CTime l)). induction n as [|n IH]; intros t;
    simpl; repeat constructor; try discriminate. apply IH.
Qed.

Lemma heartbeat_failure_abandons_process_witness :
  render heartbeat_down_world 5 "a1" "/Game/Maps/Main"
         "/Game/Sequences/Shot010" "/Game/Presets/Final" []
  = (Exc (ConnectionError "timed out"),
     EvPopen (command "a1" "/Game/Maps/Main" "/Game/Sequences/Shot010"
                      "/Game/Presets/Final") "C:\farm\unrealRenderFarm"
       :: EvTime
       :: ticks heartbeat_down_world "a1" (time_at heartbeat_down_world 0) 1 1
       ++ [EvPoll; EvTime;
           heartbeat "a1" (time_at heartbeat_down_world 2
                           - time_at heartbeat_down_world 0)])
  /\
  ncalls CCommunicate
         (snd (render heartbeat_down_world 5 "a1" "/Game/Maps/Main"
                      "/Game/Sequences/Shot010" "/Game/Presets/Final" [])) = O.
Proof.
  apply (heartbeat_failure_abandons_process heartbeat_down_world 5 "a1"
           "/Game/Maps/Main" "/Game/Sequences/Shot010" "/Game/Presets/Final"
           [] 1 (ConnectionError "timed out")).
  - reflexivity.
  - lia.
  - intros i Hi. destruct i as [|i]; [split; reflexivity|lia].
  - reflexivity.
  - reflexivity.
Defined.


(** ** The order of a pass *)

Lemma process_job_segment (w : World) (fuel : nat) (u : string)
      (l : list Event) :
  job_segment w u (snd (process_job w fuel u l)).
Proof.
  pose proof (process_job_events w fuel u l) as Hjob.
  assert (Hhead : exists rest,
             snd (process_job w fuel u l) = EvFromDb u :: rest /\
             Forall (fun ev => kind ev <> CFromDb) rest).
  { rewrite process_job_unfold. unfold process_job_cases.
    destruct (from_db_at w (ncalls CFromDb l)) as [r|e];
      [|exists []; split; [reflexivity|constructor]].
    destruct (update_at w (ncalls CUpdate l)) as [[]|e];
      [|eexists; split; [reflexivity|repeat constructor; discriminate]].
    assert (Hdrv : Forall (fun ev => kind ev <> CFromDb)
                     (snd (render w fuel u (umap_path r) (useq_path r)
                             (uconfig_path r)
                             (l ++ [EvFromDb u; claim_write u])))).
    { eapply Forall_impl; [|apply render_calls].
      intros ev Hev E. unfold driver_call in Hev. now rewrite E in Hev. }
    destruct (render w fuel u _ _ _ _) as [[[[c out] err]|e|] evs];
      simpl in Hdrv.
    - destruct (c =? 0)%Z; [destruct (update_at w (S (ncalls CUpdate l)))|];
        simpl; eexists; (split; [reflexivity|]);
        (constructor; [discriminate|]);
        (apply Forall_app; split; [exact Hdrv|]);
        repeat constructor; discriminate.
    - simpl; eexists; (split; [reflexivity|]).
      constructor; [discriminate|].
      apply Forall_app; split; [exact Hdrv|].
      repeat constructor; discriminate.
    - simpl; eexists; (split; [reflexivity|]).
      constructor; [discriminate|exact Hdrv]. }
  destruct Hhead as (rest & Heq & Hkinds).
  exists rest. rewrite Heq in Hjob. apply Forall_inv_tail in Hjob.
  now repeat split.
Qed.

Lemma for_each_segments (w : World) (fuel : nat) (us : list string) :
  forall l,
  exists k segs,
    snd (for_each us (process_job w fuel) l) = concat segs /\
    Forall2 (job_segment w) (firstn k us) segs /\
    (fst (for_each us (process_job w fuel) l) = Ret tt -> k = length us).
Proof.
  induction us as [|u us IH]; intros l.
  - exists O, []. repeat split; constructor.
  - rewrite for_each_cons.
    pose proof (process_job_segment w fuel u l) as Hseg.
    destruct (process_job w fuel u l) as [[[]|e|] evs]; simpl in Hseg.
    + destruct (IH (l ++ evs)) as (k & segs & Heq & Hall & Hk).
      destruct (for_each us (process_job w fuel) (l ++ evs)) as [r evs'].
      simpl in *. exists (S k), (evs :: segs). subst evs'.
      repeat split; [now constructor|]. intros H. now rewrite (Hk H).
    + exists 1%nat, [evs]. simpl. rewrite app_nil_r.
      repeat split; [now repeat constructor|discriminate].
    + exists 1%nat, [evs]. simpl. rewrite app_nil_r.
      repeat split; [now repeat constructor|discriminate].
Qed.

Lemma worker_pass_fetched (w : World) (fuel : nat) (l : list Event)
      (rrequests : list RenderRequest) :
  get_all_requests_at w (ncalls CGetAllRequests l) = Returns rrequests ->
  worker_pass w fuel l
  = match for_each (map uid (filter eligible rrequests)) (process_job w fuel)
                   (l ++ [EvGetAllRequests]) with
    | (Ret _, evs) => (Ret tt, EvGetAllRequests :: evs ++ [EvSleep 10])
    | (Exc e, evs) => (Exc e, EvGetAllRequests :: evs)
    | (Blocked, evs) => (Blocked, EvGetAllRequests :: evs)
    end.
Proof.
  intros Hfetch.
  unfold worker_pass, bind at 1, client_get_all_requests, call.
  rewrite Hfetch; simpl. unfold bind at 1.
  now destruct (for_each _ _ _) as [[[]|e|] evs].
Qed.

(** X9: a pass processes the eligible jobs one after the other, in the
    order the fetch listed them, each exactly once per listing.  Its log is
    the fetch followed by one segment per job reached, each segment starting
    with the load of that job and holding calls made for that job only (no
    interleaving of two jobs' heartbeats), and it ends with the ten-second
    sleep exactly when all eligible jobs were processed and the pass
    returns. *)
Theorem worker_pass_processes_in_order
        (w : World) (fuel : nat) (l : list Event)
        (rrequests : list RenderRequest) :
  get_all_requests_at w (ncalls CGetAllRequests l) = Returns rrequests ->
  exists k segs tail,
    snd (worker_pass w fuel l) = EvGetAllRequests :: concat segs ++ tail /\
    Forall2 (job_segment w)
            (firstn k (map uid (filter eligible rrequests))) segs /\
    (tail = [] \/ tail = [EvSleep 10]) /\
    (fst (worker_pass w fuel l) = Ret tt <->
     k = length (filter eligible rrequests) /\ tail = [EvSleep 10]).
Proof.
  intros Hfetch. rewrite (worker_pass_fetched w fuel l rrequests Hfetch).
  destruct (for_each_segments w fuel (map uid (filter eligible rrequests))
              (l ++ [EvGetAllRequests])) as (k & segs & Heq & Hall & Hk).
  rewrite length_map in Hk.
  destruct (for_each _ _ _) as [[[]|e|] evs]; simpl in *; subst evs.
  - exists k, segs, [EvSleep 10]. repeat split; auto.
  - exists k, segs, []. rewrite app_nil_r. repeat split; auto;
      try discriminate. intros [_ H]. discriminate.
  - exists k, segs, []. rewrite app_nil_r. repeat split; auto;
      try discriminate. intros [_ H]. discriminate.
Qed.

Lemma worker_pass_processes_in_order_witness :
  exists k segs tail,
    snd (worker_pass calm_world 5 [])
    = EvGetAllRequests :: concat segs ++ tail /\
    Forall2 (job_segment calm_world)
            (firstn k (map uid (filter eligible fetched))) segs /\
    (tail = [] \/ tail = [EvSleep 10]) /\
    (fst (worker_pass calm_world 5 []) = Ret tt <->
     k = length (filter eligible fetched) /\ tail = [EvSleep 10]).
Proof.
  exact (worker_pass_processes_in_order calm_world 5 [] fetched eq_refl).
Defined.

(** ** What a completed pass leaves behind *)

Lemma last_write_app_some (u : string) (evs evs' : list Event) (ev : Event) :
  last_write u evs' = Some ev -> last_write u (evs ++ evs') = Some ev.
Proof.
  unfold last_write. rewrite writes_to_app, map_app.
  destruct (writes_to u evs') as [|a ws] eqn:E; [discriminate|].
  assert (Hne : a :: ws <> []) by discriminate.
  destruct (exists_last Hne) as (ws' & z & ->).
  rewrite map_app; simpl. rewrite last_last. intros [= <-].
  rewrite app_assoc. apply last_last.
Qed.

Lemma last_write_app_none (u : string) (evs evs' : list Event) :
  writes_to u evs' = [] -> last_write u (evs ++ evs') = last_write u evs.
Proof.
  intros H. unfold last_write. now rewrite writes_to_app, H, app_nil_r.
Qed.

Lemma process_job_returns_terminal (w : World) (fuel : nat) (u : string)
      (l : list Event) :
  fst (process_job w fuel u l) = Ret tt ->
  last_write u (snd (process_job w fuel u l)) = Some (finished_write u) \/
  last_write u (snd (process_job w fuel u l)) = Some (errored_write u).
Proof.
  rewrite process_job_unfold. unfold process_job_cases.
  destruct (from_db_at w (ncalls CFromDb l)) as [r|e]; [|discriminate].
  destruct (update_at w (ncalls CUpdate l)) as [[]|e].
  - destruct (render w fuel u _ _ _ _) as [[[[c out] err]|e|] evs];
      [| |discriminate].
    + destruct (c =? 0)%Z;
        [destruct (update_at w (S (ncalls CUpdate l))) as [[]|e]|]; simpl;
        intros _.
      * left. apply (last_write_snoc u (EvFromDb u :: claim_write u :: evs)).
      * right.
        change [finished_write u; errored_write u]
          with ([finished_write u] ++ [errored_write u]).
        rewrite app_assoc.
        apply (last_write_snoc u
                 (EvFromDb u :: claim_write u :: evs ++ [finished_write u])).
      * right. apply (last_write_snoc u (EvFromDb u :: claim_write u :: evs)).
    + intros _. right.
      apply (last_write_snoc u (EvFromDb u :: claim_write u :: evs)).
  - intros _. right. apply (last_write_snoc u [EvFromDb u; claim_write u]).
Qed.

Lemma for_each_returns_terminal (w : World) (fuel : nat) (us : list string) :
  forall l,
    fst (for_each us (process_job w fuel) l) = Ret tt ->
    Forall (fun u =>
              last_write u (snd (for_each us (process_job w fuel) l))
              = Some (finished_write u) \/
              last_write u (snd (for_each us (process_job w fuel) l))
              = Some (errored_write u)) us.
Proof.
  induction us as [|u us IH]; intros l; [constructor|].
  rewrite for_each_cons.
  pose proof (process_job_returns_terminal w fuel u l) as Hstep.
  destruct (process_job w fuel u l) as [[[]|e|] evs]; simpl in *;
    try discriminate.
  specialize (IH (l ++ evs)).
  pose proof (fun H => writes_to_other_jobs w fuel u us H (l ++ evs)) as Hout.
  destruct (for_each us (process_job w fuel) (l ++ evs)) as [r evs'].
  simpl in *. intros Hr. specialize (IH Hr).
  constructor.
  - destruct (in_dec string_dec u us) as [Hin | Hnot].
    + rewrite Forall_forall in IH.
      destruct (IH u Hin) as [H | H]; [left|right];
        now apply last_write_app_some.
    + rewrite (last_write_app_none u evs evs' (Hout Hnot)).
      now apply Hstep.
  - eapply Forall_impl; [|exact IH].
    intros u' [H | H]; [left|right]; now apply last_write_app_some.
Qed.

(** X10: when a pass returns, every eligible job it fetched has been given
    a terminal status: the last write the pass addressed to it is either
    status [finished] with progress 100 or status [errored] with progress
    0; no job the pass picked up is left [in_progress] by a pass that
    returned. *)
Theorem completed_pass_leaves_terminal_status
        (w : World) (fuel : nat) (l : list Event)
        (rrequests : list RenderRequest) :
  get_all_requests_at w (ncalls CGetAllRequests l) = Returns rrequests ->
  fst (worker_pass w fuel l) = Ret tt ->
  Forall (fun u =>
            last_write u (snd (worker_pass w fuel l))
            = Some (EvUpdate u 100 finished "N/A") \/
            last_write u (snd (worker_pass w fuel l))
            = Some (EvUpdate u 0 errored "0"))
         (map uid (filter eligible rrequests)).
Proof.
  intros Hfetch. rewrite (worker_pass_fetched w fuel l rrequests Hfetch).
  pose proof (for_each_returns_terminal w fuel
                (map uid (filter eligible rrequests))
                (l ++ [EvGetAllRequests])) as H.
  destruct (for_each _ _ _) as [[[]|e|] evs]; simpl in *; try discriminate.
  intros _. eapply Forall_impl; [|apply H; reflexivity].
  intros u Hu.
  assert (E : forall ev, last_write u evs = Some ev ->
                         last_write u (EvGetAllRequests :: evs ++ [EvSleep 10])
                         = Some ev).
  { intros ev Hev.
    change (EvGetAllRequests :: evs ++ [EvSleep 10])
      with (([EvGetAllRequests] ++ evs) ++ [EvSleep 10]).
    rewrite last_write_app_none by reflexivity.
    now apply last_write_app_some. }
  destruct Hu as [Hu | Hu]; [left|right]; now apply E.
Qed.

Lemma completed_pass_leaves_terminal_status_witness :
  fst (worker_pass calm_world 5 []) = Ret tt /\
  Forall (fun u =>
            last_write u (snd (worker_pass calm_world 5 []))
            = Some (EvUpdate u 100 finished "N/A") \/
            last_write u (snd (worker_pass calm_world 5 []))
            = Some (EvUpdate u 0 errored "0"))
         (map uid (filter eligible fetched)).
Proof.
  split; [reflexivity|].
  exact (completed_pass_leaves_terminal_status calm_world 5 [] fetched
           eq_refl eq_refl).
Defined.

(** X11: with a job source whose fetches, loads and updates go through, no
    failure of the driver ends a pass: whatever the spawn, the polls, the
    heartbeats and [communicate] answer (raising included), the pass returns
    or is still waiting for a process; it never raises. *)
Theorem pass_outlives_driver_failures
        (w : World) (fuel : nat) (l : list Event) :
  (forall n, exists rrequests, get_all_requests_at w n = Returns rrequests) ->
  (forall n, exists r, from_db_at w n = Returns r) ->
  (forall n, update_at w n = Returns tt) ->
  fst (worker_pass w fuel l) = Ret tt \/ fst (worker_pass w fuel l) = Blocked.
Proof.
  intros Hfetch Hload Hupdate.
  pose proof (fun e => worker_pass_survives_driver_failures w fuel l e
                         Hfetch Hload Hupdate) as H.
  destruct (fst (worker_pass w fuel l)) as [[]|e|]; [now left| |now right].
  now destruct (H e).
Qed.

Lemma pass_outlives_driver_failures_witness :
  In (EvPopen (command "a1" "/Game/Maps/Main" "/Game/Sequences/Shot010"
                       "/Game/Presets/Final") "C:\farm\unrealRenderFarm")
     (snd (worker_pass no_executable_world 5 [])) /\
  (fst (worker_pass no_executable_world 5 []) = Ret tt \/
   fst (worker_pass no_executable_world 5 []) = Blocked).
Proof.
  split; [vm_compute; do 3 right; left; reflexivity|].
  apply (pass_outlives_driver_failures no_executable_world 5 []).
  - intros n. now exists fetched.
  - intros n. now exists (job "" WORKER_NAME ready_to_start).
  - intros n. reflexivity.
Defined.

(** ** The polling cadence *)

Lemma for_each_no_fetch (w : World) (fuel : nat) (us : list string)
      (l : list Event) :
  ~ In EvGetAllRequests (snd (for_each us (process_job w fuel) l)).
Proof.
  assert (H : emits (fun ev => exists u, job_event w u ev)
                    (for_each us (process_job w fuel))).
  { apply emits_for_each. intros u _.
    eapply emits_weaken; [|apply process_job_events].
    intros ev Hev. now exists u. }
  specialize (H l). rewrite Forall_forall in H.
  intros Hin. destruct (H _ Hin) as [u Hu]. exact Hu.
Qed.

Lemma worker_pass_log_form (w : World) (fuel : nat) (l : list Event) :
  exists body,
    snd (worker_pass w fuel l) = EvGetAllRequests :: body /\
    ~ In EvGetAllRequests body /\
    (fst (worker_pass w fuel l) = Ret tt ->
     exists body', body = body' ++ [EvSleep 10]).
Proof.
  destruct (get_all_requests_at w (ncalls CGetAllRequests l)) as [rs|e] eqn:E.
  - rewrite (worker_pass_fetched w fuel l rs E).
    pose proof (for_each_no_fetch w fuel (map uid (filter eligible rs))
                  (l ++ [EvGetAllRequests])) as Hno.
    destruct (for_each _ _ _) as [[[]|e|] evs]; simpl in *.
    + exists (evs ++ [EvSleep 10]). split; [reflexivity|]. split; [|eauto].
      intros Hin. apply in_app_or in Hin.
      destruct Hin as [Hin | [Hin | []]]; [now apply Hno|discriminate].
    + exists evs. repeat split; [exact Hno|discriminate].
    + exists evs. repeat split; [exact Hno|discriminate].
  - rewrite (worker_pass_fetch_raises w fuel l e E).
    exists []. repeat split; [now intros []|discriminate].
Qed.

(** X12: the worker never polls the job source twice in a row without
    sleeping ten seconds in between: in the log of any number of passes,
    every [get_all_requests] call but the very first comes right after a
    [time.sleep(10)]. *)
Theorem fetches_are_separated_by_sleep
        (w : World) (passes fuel : nat) (l pre post : list Event) :
  snd (worker_loop w passes fuel l) = pre ++ EvGetAllRequests :: post ->
  pre = [] \/ exists pre', pre = pre' ++ [EvSleep 10].
Proof.
  revert l pre post. induction passes as [|passes IH]; intros l pre post.
  - simpl. intros H. now destruct pre.
  - simpl. unfold bind.
    destruct (worker_pass_log_form w fuel l) as (body & Hlog & Hno & Hend).
    destruct (worker_pass w fuel l) as [[[]|e|] evs]; simpl in *; subst evs.
    + destruct (Hend eq_refl) as [body' ->].
      specialize (IH (l ++ EvGetAllRequests :: body' ++ [EvSleep 10])).
      destruct (worker_loop w passes fuel _) as [r rest]. simpl in *.
      intros H.
      destruct pre as [|ev pre1]; [now left|]. right.
      injection H as <- H. apply app_eq_app in H.
      destruct H as (m & [[H1 H2] | [H1 H2]]).
      * destruct m as [|x m].
        -- rewrite app_nil_r in H1. subst pre1.
           now exists (EvGetAllRequests :: body').
        -- injection H2 as <- _. exfalso. apply Hno. rewrite H1.
           apply in_or_app. right. now left.
      * destruct (IH _ _ H2) as [-> | [m' ->]].
        -- rewrite app_nil_r in H1. subst pre1.
           now exists (EvGetAllRequests :: body').
        -- subst pre1.
           exists (EvGetAllRequests :: (body' ++ [EvSleep 10]) ++ m').
           simpl. now rewrite <- !app_assoc.
    + destruct pre as [|ev pre1]; [now left|].
      intros [= <- H]. exfalso. apply Hno. rewrite H.
      apply in_or_app. right. now left.
    + destruct pre as [|ev pre1]; [now left|].
      intros [= <- H]. exfalso. apply Hno. rewrite H.
      apply in_or_app. right. now left.
Qed.

Lemma fetches_are_separated_by_sleep_witness :
  snd (worker_loop idle_world 2 5 [])
  = [EvGetAllRequests; EvSleep 10] ++ EvGetAllRequests :: [EvSleep 10] /\
  ([EvGetAllRequests; EvSleep 10] = [] \/
   exists pre', [EvGetAllRequests; EvSleep 10] = pre' ++ [EvSleep 10]).
Proof.
  split; [reflexivity|].
  exact (fetches_are_separated_by_sleep idle_world 2 5 []
           [EvGetAllRequests; EvSleep 10] [EvSleep 10] eq_refl).
Defined.

(** ** The estimates past the first minute *)

Lemma int_of_float_lt (x : Q) (n : Z) :
  0 < n -> (x < inject_Z n)%Q -> int_of_float x < n.
Proof.
  intros Hn Hx.
  destruct (Z.le_gt_cases 0 (Qnum x)) as [H | H].
  - rewrite int_of_float_floor by exact H.
    rewrite Zlt_Qlt. eapply Qle_lt_trans; [apply Qfloor_le|exact Hx].
  - assert (int_of_float x <= 0); [|lia].
    apply int_of_float_nonpos. destruct x; unfold Qle; simpl in *; lia.
Qed.

Lemma scaled_le (elapsed : Q) :
  (60 <= elapsed)%Q <-> (100 <= (elapsed / 60) * 100)%Q.
Proof.
  destruct elapsed as [n d]. unfold Qdiv.
  change (/ 60)%Q with (1 # 60)%Q.
  unfold Qle, Qmult; cbn [Qnum Qden].
  rewrite ?Pos2Z.inj_mul. lia.
Qed.

(** X13: the progress estimate reaches 100 exactly when 60 seconds have
    elapsed: a heartbeat sent 60 seconds or more after the start reports
    progress 100 (while its status is still [in_progress]), and one sent
    earlier reports less than 100. *)
Theorem progress_is_full_from_60s (elapsed_time : Q) :
  progress_of elapsed_time = 100 <-> (60 <= elapsed_time)%Q.
Proof.
  unfold progress_of. split.
  - intros H.
    destruct (Qlt_le_dec elapsed_time 60) as [Hlt | Hle]; [|exact Hle].
    exfalso.
    assert (int_of_float ((elapsed_time / 60) * 100)%Q < 100); [|lia].
    apply int_of_float_lt; [lia|].
    apply Qnot_le_lt. intros Hge. apply scaled_le in Hge.
    now apply Qle_not_lt in Hge.
  - intros H. apply scaled_le in H.
    apply int_of_float_le in H. change (int_of_float 100) with 100 in H. lia.
Qed.

(** X14: the time estimate counts down: the number of seconds a heartbeat
    announces never grows as the elapsed time grows, it is at most 60 once
    the elapsed time is not negative, and it is positive exactly as long as
    no more than 59 seconds have elapsed. *)
Theorem time_estimate_counts_down (e1 e2 : Q) :
  ((e1 <= e2)%Q -> int_of_float (60 - e2) <= int_of_float (60 - e1)) /\
  ((0 <= e1)%Q -> int_of_float (60 - e1) <= 60) /\
  (0 < int_of_float (60 - e1) <-> (e1 <= 59)%Q).
Proof.
  split; [|split].
  - intros H. apply int_of_float_le.
    apply Qplus_le_r. now apply Qopp_le_compat.
  - intros H. change 60 with (int_of_float 60) at 2.
    apply int_of_float_le.
    apply (Qplus_le_l _ _ e1). ring_simplify.
    apply (Qplus_le_l _ _ (-60)). ring_simplify. exact H.
  - split.
    + intros H.
      destruct (Qlt_le_dec 59 e1) as [Hlt | Hle]; [|exact Hle].
      exfalso. assert (int_of_float (60 - e1) < 1); [|lia].
      apply int_of_float_lt; [lia|].
      apply (Qplus_lt_l _ _ e1). ring_simplify.
      apply (Qplus_lt_l _ _ (-1)). ring_simplify. exact Hlt.
    + intros H. assert (1 <= int_of_float (60 - e1)); [|lia].
      change 1 with (int_of_float 1) at 1. apply int_of_float_le.
      apply (Qplus_le_l _ _ e1). ring_simplify.
      apply (Qplus_le_l _ _ (-1)). ring_simplify. exact H.
Qed.

Lemma time_estimate_counts_down_witness :
  int_of_float (60 - 20) <= int_of_float (60 - 10) /\
  int_of_float (60 - 10) <= 60 /\
  (0 < int_of_float (60 - 10) <-> (10 <= 59)%Q).
Proof.
  destruct (time_estimate_counts_down 10 20) as (H1 & H2 & H3).
  split; [apply H1; discriminate|].
  split; [apply H2; discriminate|exact H3].
Defined.
